(** * Alpha Vantage fundamentals: report trimming and retrieval

    A shallow embedding of [tradingagents/dataflows/alpha_vantage_fundamentals.py].

    The module parses a response with [json.loads], cuts the two report
    arrays with Python slices and prints the result with
    [json.dumps(data, indent=2)].  The two library calls are embedded after
    CPython's [json] package ([json/decoder.py], [json/scanner.py],
    [json/encoder.py]); the conversion between decimal literals and binary
    floating point numbers ([float(text)] and [float.__repr__]) is kept
    abstract.  Python's integers are unbounded.  The limits of the
    interpreter are not modelled: its recursion limit (the scanner below is
    given enough fuel for every input), its memory and, from Python 3.11
    on, the bound on the number of digits of an integer that is converted
    from or to text (4300 unless configured otherwise).

    A Python [str] is a sequence of code points, here a list of [N]. *)

From Stdlib Require Import List NArith ZArith Lia Bool String Ascii.
Import ListNotations.

Local Open Scope N_scope.

(** ** Strings *)

Definition pystr := list N.

(** A string literal of the source. *)
Definition lit (s : string) : pystr := map N_of_ascii (list_ascii_of_string s).

(** [a == b] on strings. *)
Fixpoint pystr_eqb (a b : pystr) : bool :=
  match a, b with
  | [], [] => true
  | x :: a', y :: b' => (x =? y) && pystr_eqb a' b'
  | _, _ => false
  end.

(** [s.startswith(p)], returning what follows the prefix. *)
Fixpoint strip_prefix (p s : pystr) : option pystr :=
  match p, s with
  | [], _ => Some s
  | _ :: _, [] => None
  | a :: p', b :: s' => if a =? b then strip_prefix p' s' else None
  end.

(** A text of the examples, written with apostrophes where it has
    double quotes. *)
Definition quoted (s : string) : pystr :=
  map (fun c => if c =? 39 then 34 else c) (lit s).

(** [needle in s] for two strings: the substring test. *)
Fixpoint is_substring (needle s : pystr) : bool :=
  match strip_prefix needle s with
  | Some _ => true
  | None => match s with
            | [] => false
            | _ :: s' => is_substring needle s'
            end
  end.

(** The code points of the characters the scanner and the encoder name. *)
Abbreviation QUOTE := 34 (only parsing).      (* the double quote *)
Abbreviation BACKSLASH := 92 (only parsing).
Abbreviation SLASH := 47 (only parsing).
Abbreviation LBRACE := 123 (only parsing).
Abbreviation RBRACE := 125 (only parsing).
Abbreviation LBRACKET := 91 (only parsing).
Abbreviation RBRACKET := 93 (only parsing).
Abbreviation COMMA := 44 (only parsing).
Abbreviation COLON := 58 (only parsing).
Abbreviation MINUS := 45 (only parsing).
Abbreviation PLUS := 43 (only parsing).
Abbreviation DOT := 46 (only parsing).
Abbreviation SPACE := 32 (only parsing).
Abbreviation NEWLINE := 10 (only parsing).
Abbreviation ZERO := 48 (only parsing).       (* the digit 0 *)

(** ** Decimal and hexadecimal digits *)

Definition is_digit (c : N) : bool := (48 <=? c) && (c <=? 57).

(** The longest run of ASCII digits at the head of [s], and the rest. *)
Fixpoint take_digits (s : pystr) : pystr * pystr :=
  match s with
  | c :: s' =>
      if is_digit c then let (ds, r) := take_digits s' in (c :: ds, r)
      else ([], s)
  | [] => ([], [])
  end.

(** The number a run of decimal digits denotes. *)
Definition digits_value (ds : pystr) : N :=
  fold_left (fun acc c => 10 * acc + (c - 48)) ds 0.

(** [int(text)] on the integer part of a JSON number: an optional minus
    sign and digits. *)
Definition parse_int (text : pystr) : Z :=
  match text with
  | c :: ds => if c =? MINUS then (- Z.of_N (digits_value ds))%Z
               else Z.of_N (digits_value text)
  | [] => 0%Z
  end.

(** The decimal digits of [n], most significant first.  [fuel] bounds the
    number of digits. *)
Fixpoint digits_of (fuel : nat) (n : N) (acc : pystr) : pystr :=
  match fuel with
  | O => acc
  | S fuel' =>
      let acc' := (48 + n mod 10) :: acc in
      if n <? 10 then acc' else digits_of fuel' (n / 10) acc'
  end.

Definition nat_repr (n : N) : pystr := digits_of (S (N.size_nat n)) n [].

(** [int.__repr__]. *)
Definition int_repr (z : Z) : pystr :=
  match z with
  | Zneg p => MINUS :: nat_repr (Npos p)
  | _ => nat_repr (Z.to_N z)
  end.

(** One hexadecimal digit, as [0-9a-fA-F]. *)
Definition hex_value (c : N) : option N :=
  if (48 <=? c) && (c <=? 57) then Some (c - 48)
  else if (97 <=? c) && (c <=? 102) then Some (c - 87)
  else if (65 <=? c) && (c <=? 70) then Some (c - 55)
  else None.

(** The four hexadecimal digits after [\u]. *)
Definition hex4 (a b c d : N) : option N :=
  match hex_value a, hex_value b, hex_value c, hex_value d with
  | Some x, Some y, Some z, Some w => Some (4096 * x + 256 * y + 16 * z + w)
  | _, _, _, _ => None
  end.

(** One digit of the format [x]: lower case. *)
Definition hex_digit (d : N) : N := if d <? 10 then 48 + d else 87 + d.

(** ['\\u{0:04x}'.format(n)]. *)
Definition u_escape (n : N) : pystr :=
  [BACKSLASH; 117;
   hex_digit ((n / 4096) mod 16); hex_digit ((n / 256) mod 16);
   hex_digit ((n / 16) mod 16); hex_digit (n mod 16)].

(** ** json.decoder: whitespace, strings and numbers *)

(** [WHITESPACE]: spaces, tabs, newlines and carriage returns. *)
Definition is_ws (c : N) : bool :=
  (c =? SPACE) || (c =? 9) || (c =? NEWLINE) || (c =? 13).

Fixpoint skip_ws (s : pystr) : pystr :=
  match s with
  | c :: s' => if is_ws c then skip_ws s' else s
  | [] => []
  end.

(** [BACKSLASH]: the one-letter escapes. *)
Definition backslash (esc : N) : option N :=
  if esc =? QUOTE then Some QUOTE
  else if esc =? BACKSLASH then Some BACKSLASH
  else if esc =? SLASH then Some SLASH
  else if esc =? 98 then Some 8          (* b *)
  else if esc =? 102 then Some 12        (* f *)
  else if esc =? 110 then Some 10        (* n *)
  else if esc =? 114 then Some 13        (* r *)
  else if esc =? 116 then Some 9         (* t *)
  else None.

Definition is_high_surrogate (c : N) : bool := (0xd800 <=? c) && (c <=? 0xdbff).
Definition is_low_surrogate (c : N) : bool := (0xdc00 <=? c) && (c <=? 0xdfff).

(** [0x10000 + (((uni - 0xd800) << 10) | (uni2 - 0xdc00))] *)
Definition join_surrogates (uni uni2 : N) : N :=
  0x10000 + N.lor (N.shiftl (uni - 0xd800) 10) (uni2 - 0xdc00).

Definition push (c : N) (r : option (pystr * pystr)) : option (pystr * pystr) :=
  match r with
  | Some (chars, rest) => Some (c :: chars, rest)
  | None => None
  end.

(** [scanstring(s, end, strict=True)], called just after the opening
    quote: the string's characters and what follows the closing quote.
    [None] stands for a [JSONDecodeError]. *)
Fixpoint scanstring (s : pystr) : option (pystr * pystr) :=
  match s with
  | [] => None                         (* unterminated string *)
  | c :: rest =>
      if c =? QUOTE then Some ([], rest)
      else if c =? BACKSLASH then
        match rest with
        | [] => None                   (* unterminated string *)
        | esc :: rest1 =>
            if esc =? 117 then         (* u *)
              match rest1 with
              | h1 :: h2 :: h3 :: h4 :: rest2 =>
                  match hex4 h1 h2 h3 h4 with
                  | None => None       (* invalid \uXXXX escape *)
                  | Some uni =>
                      if is_high_surrogate uni then
                        match rest2 with
                        | b :: u :: rest3 =>
                            if (b =? BACKSLASH) && (u =? 117) then
                              match rest3 with
                              | l1 :: l2 :: l3 :: l4 :: rest4 =>
                                  match hex4 l1 l2 l3 l4 with
                                  | None => None
                                  | Some uni2 =>
                                      if is_low_surrogate uni2
                                      then push (join_surrogates uni uni2) (scanstring rest4)
                                      else push uni (scanstring rest2)
                                  end
                              | _ => None
                              end
                            else push uni (scanstring rest2)
                        | _ => push uni (scanstring rest2)
                        end
                      else push uni (scanstring rest2)
                  end
              | _ => None              (* invalid \uXXXX escape *)
              end
            else
              match backslash esc with
              | Some char => push char (scanstring rest1)
              | None => None           (* invalid \escape *)
              end
        end
      else if c <? 32 then None        (* invalid control character *)
      else push c (scanstring rest)
  end.

(** [NUMBER_RE], matched at the head of [s].  Its three groups are the
    integer part (an optional minus sign, then a single 0 or a digit from
    1 to 9 followed by digits), the optional fraction (a dot and one or
    more digits) and the optional exponent (e or E, an optional sign and
    one or more digits).  The result is the three groups and the rest of
    the input; a group that did not match is empty. *)
Definition match_integer (s : pystr) : option (pystr * pystr) :=
  match s with
  | c :: s' =>
      if c =? ZERO then Some ([c], s')
      else if is_digit c then let (ds, r) := take_digits s' in Some (c :: ds, r)
      else None
  | [] => None
  end.

Definition match_frac (s : pystr) : pystr * pystr :=
  match s with
  | c :: s' =>
      if c =? DOT then
        match take_digits s' with
        | ([], _) => ([], s)
        | (ds, r) => (c :: ds, r)
        end
      else ([], s)
  | [] => ([], s)
  end.

Definition match_exp (s : pystr) : pystr * pystr :=
  match s with
  | c :: s' =>
      if (c =? 101) || (c =? 69) then      (* e, E *)
        match s' with
        | sign :: s'' =>
            if (sign =? MINUS) || (sign =? PLUS) then
              match take_digits s'' with
              | ([], _) => ([], s)
              | (ds, r) => (c :: sign :: ds, r)
              end
            else
              match take_digits s' with
              | ([], _) => ([], s)
              | (ds, r) => (c :: ds, r)
              end
        | [] => ([], s)
        end
      else ([], s)
  | [] => ([], s)
  end.

Definition match_number (s : pystr) : option (pystr * pystr * pystr * pystr) :=
  let signed (sign : pystr) (s0 : pystr) :=
    match match_integer s0 with
    | Some (int, r1) =>
        let (frac, r2) := match_frac r1 in
        let (exp, r3) := match_exp r2 in
        Some (sign ++ int, frac, exp, r3)
    | None => None
    end in
  match s with
  | c :: s' => if c =? MINUS then signed [c] s' else signed [] s
  | [] => None
  end.

(** ** json.encoder: strings *)

(** The replacement [py_encode_basestring_ascii] makes for one character:
    [ESCAPE_ASCII] matches a backslash, a quote and whatever is outside
    the range from the space to the tilde; [ESCAPE_DCT] names the short
    escapes; the rest is written as one or two [\uXXXX]. *)
Definition escape_char (c : N) : pystr :=
  if c =? BACKSLASH then [BACKSLASH; BACKSLASH]
  else if c =? QUOTE then [BACKSLASH; QUOTE]
  else if (SPACE <=? c) && (c <=? 126) then [c]
  else if c =? 8 then [BACKSLASH; 98]
  else if c =? 12 then [BACKSLASH; 102]
  else if c =? 10 then [BACKSLASH; 110]
  else if c =? 13 then [BACKSLASH; 114]
  else if c =? 9 then [BACKSLASH; 116]
  else if c <? 0x10000 then u_escape c
  else
    let n := c - 0x10000 in
    let s1 := N.lor 0xd800 (N.land (N.shiftr n 10) 0x3ff) in
    let s2 := N.lor 0xdc00 (N.land n 0x3ff) in
    u_escape s1 ++ u_escape s2.

Definition encode_basestring_ascii (s : pystr) : pystr :=
  QUOTE :: flat_map escape_char s ++ [QUOTE].

(** ['\n' + _indent * _current_indent_level] with [indent=2]. *)
Definition newline_indent (level : nat) : pystr :=
  NEWLINE :: repeat SPACE (2 * level).

(** ** Well-formed text *)

Definition is_surrogate (c : N) : bool := (0xd800 <=? c) && (c <=? 0xdfff).

(** A Unicode scalar value: a code point that is not a surrogate. *)
Definition is_scalar (c : N) : bool := (c <? 0x110000) && negb (is_surrogate c).

(** Text made of Unicode scalar values, as every text decoded from UTF-8
    is. *)
Definition scalar_text (s : pystr) : bool := forallb is_scalar s.

(** A string of code points in which no high surrogate is followed by a
    low surrogate. *)
Fixpoint str_ok (s : pystr) : bool :=
  match s with
  | [] => true
  | c :: s' =>
      (c <? 0x110000)
      && negb (is_high_surrogate c
               && match s' with
                  | c' :: _ => is_low_surrogate c'
                  | [] => false
                  end)
      && str_ok s'
  end.

(** A text that [NUMBER_RE] matches to its end, with a fraction or an
    exponent: what [json] reads as a float. *)
Definition is_float_literal (text : pystr) : bool :=
  match match_number text with
  | Some (_, [], [], _) => false
  | Some (_, _, _, []) => true
  | _ => false
  end.

(** ** Predicates of the proofs on text *)

(** A run of ASCII digits. *)
Definition all_digits (ds : pystr) : Prop := Forall (fun c => is_digit c = true) ds.

(** The input does not go on with a digit. *)
Definition no_digit_ahead (s : pystr) : Prop :=
  match s with
  | c :: _ => is_digit c = false
  | [] => True
  end.

(** The input does not go on like a number. *)
Definition number_end (rest : pystr) : Prop :=
  match rest with
  | c :: _ => is_digit c = false /\ c <> DOT /\ c <> 101 /\ c <> 69
  | [] => True
  end.

(** ASCII text. *)
Definition ascii_text (s : pystr) : Prop := Forall (fun c => c < 128) s.

(** What follows is not the escape of a low surrogate. *)
Definition no_low_escape_ahead (tail : pystr) : Prop :=
  match tail with
  | b :: u :: l1 :: l2 :: l3 :: l4 :: _ =>
      b = BACKSLASH -> u = 117 ->
      forall uni2, hex4 l1 l2 l3 l4 = Some uni2 -> is_low_surrogate uni2 = false
  | _ => True
  end.

(** The four shapes of a character's escape. *)
Inductive escape_shape (c : N) : pystr -> Prop :=
| shape_short (e : N) :
    backslash e = Some c -> e <> 117 -> is_high_surrogate c = false ->
    escape_shape c [BACKSLASH; e]
| shape_plain :
    32 <= c -> c <= 126 -> c <> QUOTE -> c <> BACKSLASH ->
    escape_shape c [c]
| shape_u (h1 h2 h3 h4 : N) :
    hex4 h1 h2 h3 h4 = Some c ->
    escape_shape c [BACKSLASH; 117; h1; h2; h3; h4]
| shape_pair (h1 h2 h3 h4 l1 l2 l3 l4 s1 s2 : N) :
    hex4 h1 h2 h3 h4 = Some s1 -> hex4 l1 l2 l3 l4 = Some s2 ->
    is_high_surrogate s1 = true -> is_low_surrogate s2 = true ->
    join_surrogates s1 s2 = c ->
    escape_shape c [BACKSLASH; 117; h1; h2; h3; h4;
                    BACKSLASH; 117; l1; l2; l3; l4].

(** One character read by [scanstring]: the input, the character and
    the rest of the input. *)
Inductive scan_step : pystr -> N -> pystr -> Prop :=
| step_plain (c : N) (s' : pystr) :
    c <> QUOTE -> c <> BACKSLASH -> 32 <= c -> scan_step (c :: s') c s'
| step_short (e c : N) (s' : pystr) :
    backslash e = Some c -> scan_step (BACKSLASH :: e :: s') c s'
| step_u (h1 h2 h3 h4 c : N) (s' : pystr) :
    hex4 h1 h2 h3 h4 = Some c ->
    (is_high_surrogate c = true -> no_low_escape_ahead s') ->
    scan_step (BACKSLASH :: 117 :: h1 :: h2 :: h3 :: h4 :: s') c s'
| step_pair (h1 h2 h3 h4 l1 l2 l3 l4 s1 s2 : N) (s' : pystr) :
    hex4 h1 h2 h3 h4 = Some s1 -> hex4 l1 l2 l3 l4 = Some s2 ->
    is_high_surrogate s1 = true -> is_low_surrogate s2 = true ->
    scan_step (BACKSLASH :: 117 :: h1 :: h2 :: h3 :: h4
               :: BACKSLASH :: 117 :: l1 :: l2 :: l3 :: l4 :: s')
              (join_surrogates s1 s2) s'.



(** The characters a serialized value can start with. *)
Definition value_head (c : N) : Prop :=
  c = QUOTE \/ c = LBRACE \/ c = LBRACKET \/ c = 110 \/ c = 116 \/ c = 102
  \/ c = 78 \/ c = 73 \/ c = MINUS \/ is_digit c = true.

(** ** Exceptions *)

(** The exceptions that can leave this module: the two the trimmer's own
    statements raise on data of an unexpected shape, and whatever the
    request helper raises. *)
Inductive exn : Type :=
| TypeError
| KeyError
| RequestError (message : pystr).

(** The two families of interpreters that differ on this module. *)
Inductive python : Type :=
| Before_3_12
| From_3_12.

Inductive result (A : Type) : Type :=
| Ok (a : A)
| Raise (e : exn).

Arguments Ok {A} a.
Arguments Raise {A} e.

Definition bind {A B : Type} (m : result A) (k : A -> result B) : result B :=
  match m with
  | Ok a => k a
  | Raise e => Raise e
  end.

Notation "x <- m ;; k" := (bind m (fun x => k))
  (at level 61, m at next level, right associativity).

(** ** JSON data as Python values *)

(** A Python [float]: a finite number of the abstract type [F], or one of
    the three values [json] writes as [Infinity], [-Infinity] and [NaN]. *)
Inductive pyfloat (F : Type) : Type :=
| Finite (x : F)
| PosInf
| NegInf
| NaN.

Arguments Finite {F} x.
Arguments PosInf {F}.
Arguments NegInf {F}.
Arguments NaN {F}.

(** Floats for examples: the whole numbers, written with [.0] as Python
    writes them, and read by their integer part. *)
Definition whole_float : Type := Z.

Definition whole_repr (x : whole_float) : pystr := int_repr x ++ lit ".0".

Definition whole_of_literal (text : pystr) : pyfloat whole_float :=
  match match_number text with
  | Some (integer, _, _, _) => Finite (parse_int integer)
  | None => NaN
  end.

Section Json.

(** [float(text)] on the text of a JSON number with a fraction or an
    exponent, and [float.__repr__] on a finite number. *)
Variable F : Type.
Variable float_of_literal : pystr -> pyfloat F.
Variable float_repr : F -> pystr.

(** What [json.loads] builds.  A [dict] keeps its keys in insertion
    order, so it is a list of pairs with pairwise distinct keys. *)
#[local] Unset Elimination Schemes.
Inductive value : Type :=
| VNone
| VBool (b : bool)
| VInt (z : Z)
| VFloat (f : pyfloat F)
| VStr (s : pystr)
| VList (l : list value)
| VDict (d : list (pystr * value)).
#[local] Set Elimination Schemes.

(** [d.get(k)] *)
Fixpoint dict_get (d : list (pystr * value)) (k : pystr) : option value :=
  match d with
  | [] => None
  | (k', v) :: d' => if pystr_eqb k' k then Some v else dict_get d' k
  end.

(** [d[k] = v]: an existing key keeps its place. *)
Fixpoint dict_set (d : list (pystr * value)) (k : pystr) (v : value)
  : list (pystr * value) :=
  match d with
  | [] => [(k, v)]
  | (k', v') :: d' =>
      if pystr_eqb k' k then (k', v) :: d' else (k', v') :: dict_set d' k v
  end.

(** [dict(pairs)] *)
Definition dict_of_pairs (pairs : list (pystr * value)) : list (pystr * value) :=
  fold_left (fun d kv => dict_set d (fst kv) (snd kv)) pairs [].

(** ** json.decoder: containers and the scanner *)

Section Containers.

(** The scanner the container parsers call for each element, as in
    [JSONArray(s_and_end, scan_once)] and [JSONObject(...)]. *)
Variable scan_once : pystr -> option (value * pystr).

(** The [while True] loop of [JSONArray]: a value, then [']'] or [','].
    [n] bounds the number of iterations. *)
Fixpoint JSONArray_loop (n : nat) (s : pystr) : option (list value * pystr) :=
  match n with
  | O => None
  | S n' =>
      match scan_once s with
      | None => None                             (* expecting value *)
      | Some (v, s1) =>
          match skip_ws s1 with
          | nextchar :: s2 =>
              if nextchar =? RBRACKET then Some ([v], s2)
              else if nextchar =? COMMA then
                match JSONArray_loop n' (skip_ws s2) with
                | Some (values, r) => Some (v :: values, r)
                | None => None
                end
              else None                          (* expecting ',' delimiter *)
          | [] => None
          end
      end
  end.

(** [JSONArray], called just after the opening bracket. *)
Definition JSONArray (s : pystr) : option (value * pystr) :=
  match skip_ws s with
  | nextchar :: s1 =>
      if nextchar =? RBRACKET then Some (VList [], s1)
      else
        match JSONArray_loop (List.length s) (skip_ws s) with
        | Some (values, r) => Some (VList values, r)
        | None => None
        end
  | [] => None
  end.

(** The [while True] loop of [JSONObject], entered just after the
    opening quote of a key. *)
Fixpoint JSONObject_loop (n : nat) (s : pystr) : option (list (pystr * value) * pystr) :=
  match n with
  | O => None
  | S n' =>
      match scanstring s with
      | None => None
      | Some (key, s1) =>
          match skip_ws s1 with
          | colon :: s2 =>
              if colon =? COLON then
                match scan_once (skip_ws s2) with
                | None => None                   (* expecting value *)
                | Some (v, s3) =>
                    match skip_ws s3 with
                    | nextchar :: s4 =>
                        if nextchar =? RBRACE then Some ([(key, v)], s4)
                        else if nextchar =? COMMA then
                          match skip_ws s4 with
                          | q :: s5 =>
                              if q =? QUOTE then
                                match JSONObject_loop n' s5 with
                                | Some (pairs, r) => Some ((key, v) :: pairs, r)
                                | None => None
                                end
                              else None          (* expecting property name *)
                          | [] => None
                          end
                        else None                (* expecting ',' delimiter *)
                    | [] => None
                    end
                end
              else None                          (* expecting ':' delimiter *)
          | [] => None
          end
      end
  end.

(** [JSONObject], called just after the opening brace. *)
Definition JSONObject (s : pystr) : option (value * pystr) :=
  match skip_ws s with
  | nextchar :: s1 =>
      if nextchar =? RBRACE then Some (VDict [], s1)
      else if nextchar =? QUOTE then
        match JSONObject_loop (List.length s) s1 with
        | Some (pairs, r) => Some (VDict (dict_of_pairs pairs), r)
        | None => None
        end
      else None                                  (* expecting property name *)
  | [] => None
  end.

End Containers.

(** [_scan_once] of [json.scanner].  [fuel] bounds the nesting depth. *)
Fixpoint scan_once (fuel : nat) (s : pystr) : option (value * pystr) :=
  match fuel with
  | O => None
  | S fuel' =>
      match s with
      | [] => None                               (* StopIteration *)
      | nextchar :: rest =>
          if nextchar =? QUOTE then
            match scanstring rest with
            | Some (chars, r) => Some (VStr chars, r)
            | None => None
            end
          else if nextchar =? LBRACE then JSONObject (scan_once fuel') rest
          else if nextchar =? LBRACKET then JSONArray (scan_once fuel') rest
          else
            match strip_prefix (lit "null") s,
                  strip_prefix (lit "true") s,
                  strip_prefix (lit "false") s with
            | Some r, _, _ => Some (VNone, r)
            | _, Some r, _ => Some (VBool true, r)
            | _, _, Some r => Some (VBool false, r)
            | None, None, None =>
                match match_number s with
                | Some (integer, frac, exp, r) =>
                    match frac, exp with
                    | [], [] => Some (VInt (parse_int integer), r)
                    | _, _ => Some (VFloat (float_of_literal (integer ++ frac ++ exp)), r)
                    end
                | None =>
                    match strip_prefix (lit "NaN") s,
                          strip_prefix (lit "Infinity") s,
                          strip_prefix (lit "-Infinity") s with
                    | Some r, _, _ => Some (VFloat NaN, r)
                    | _, Some r, _ => Some (VFloat PosInf, r)
                    | _, _, Some r => Some (VFloat NegInf, r)
                    | None, None, None => None   (* StopIteration *)
                    end
                end
            end
      end
  end.

(** [json.loads(s)] for a [str]: [None] stands for a [JSONDecodeError]. *)
Definition loads (s : pystr) : option value :=
  match strip_prefix [0xfeff] s with
  | Some _ => None                               (* unexpected UTF-8 BOM *)
  | None =>
      match scan_once (S (List.length s)) (skip_ws s) with
      | Some (obj, rest) =>
          match skip_ws rest with
          | [] => Some obj
          | _ :: _ => None                       (* extra data *)
          end
      | None => None
      end
  end.

(** ** json.encoder: values *)

(** [floatstr] with [allow_nan=True]. *)
Definition floatstr (o : pyfloat F) : pystr :=
  match o with
  | NaN => lit "NaN"
  | PosInf => lit "Infinity"
  | NegInf => lit "-Infinity"
  | Finite x => float_repr x
  end.

(** [_iterencode] of [_make_iterencode], with [indent=2], the item
    separator [','] and the key separator [': '], the chunks joined. *)
Fixpoint iterencode (o : value) (level : nat) {struct o} : pystr :=
  match o with
  | VStr s => encode_basestring_ascii s
  | VNone => lit "null"
  | VBool true => lit "true"
  | VBool false => lit "false"
  | VInt z => int_repr z
  | VFloat f => floatstr f
  | VList [] => lit "[]"
  | VList (first :: lst) =>
      LBRACKET :: newline_indent (S level) ++ iterencode first (S level)
      ++ flat_map (fun v => COMMA :: newline_indent (S level)
                                  ++ iterencode v (S level)) lst
      ++ newline_indent level ++ [RBRACKET]
  | VDict [] => lit "{}"
  | VDict ((key, first) :: dct) =>
      LBRACE :: newline_indent (S level)
      ++ encode_basestring_ascii key ++ [COLON; SPACE]
      ++ iterencode first (S level)
      ++ flat_map (fun kv => COMMA :: newline_indent (S level)
                                   ++ encode_basestring_ascii (fst kv)
                                   ++ [COLON; SPACE]
                                   ++ iterencode (snd kv) (S level)) dct
      ++ newline_indent level ++ [RBRACE]
  end.

(** [json.dumps(data, indent=2)] *)
Definition dumps (data : value) : pystr := iterencode data 0.

(** ** The statements of the trimmer *)

(** [x == key] for a string [key]. *)
Definition eq_str (key : pystr) (x : value) : bool :=
  match x with
  | VStr s => pystr_eqb s key
  | _ => false
  end.

(** [key in data]: a key of a dict, an element of a list, a substring of
    a string; a [TypeError] for what is not a container. *)
Definition contains (data : value) (key : pystr) : result bool :=
  match data with
  | VDict d => Ok (match dict_get d key with Some _ => true | None => false end)
  | VList l => Ok (existsb (eq_str key) l)
  | VStr s => Ok (is_substring key s)
  | VNone | VBool _ | VInt _ | VFloat _ => Raise TypeError
  end.

(** [data[key]] for a string [key]: lists and strings take integer
    indices only, and the other values are not subscriptable. *)
Definition getitem (data : value) (key : pystr) : result value :=
  match data with
  | VDict d => match dict_get d key with
               | Some v => Ok v
               | None => Raise KeyError
               end
  | _ => Raise TypeError
  end.

(** The interpreter the module runs on.  A dict takes no slice: before
    Python 3.12 a slice is unhashable and [d[:n]] raises a [TypeError];
    from 3.12 on the slice is looked up as a key, which no parsed dict
    has, and [d[:n]] raises a [KeyError]. *)
Variable version : python.

Definition dict_slice_error : exn :=
  match version with
  | Before_3_12 => TypeError
  | From_3_12 => KeyError
  end.

(** [x[:n]]: the first [n] items of a list or of a string.  A number, a
    boolean or [None] is not subscriptable, and a dict takes no slice. *)
Definition slice_to (x : value) (n : nat) : result value :=
  match x with
  | VList l => Ok (VList (firstn n l))
  | VStr s => Ok (VStr (firstn n s))
  | VDict _ => Raise dict_slice_error
  | VNone | VBool _ | VInt _ | VFloat _ => Raise TypeError
  end.

(** [data[key] = v] *)
Definition setitem (data : value) (key : pystr) (v : value) : result value :=
  match data with
  | VDict d => Ok (VDict (dict_set d key v))
  | _ => Raise TypeError
  end.

(** ** alpha_vantage_fundamentals *)

Definition MAX_ANNUAL_REPORTS : nat := 2.
Definition MAX_QUARTERLY_REPORTS : nat := 4.

(** The body of [_trim_financial_reports] after the parse: the two [if]
    statements, each updating [data]. *)
Definition trim_data (data : value) : result value :=
  has_annual <- contains data (lit "annualReports") ;;
  data <- (if has_annual : bool then
             reports <- getitem data (lit "annualReports") ;;
             trimmed <- slice_to reports MAX_ANNUAL_REPORTS ;;
             setitem data (lit "annualReports") trimmed
           else Ok data) ;;
  has_quarterly <- contains data (lit "quarterlyReports") ;;
  data <- (if has_quarterly : bool then
             reports <- getitem data (lit "quarterlyReports") ;;
             trimmed <- slice_to reports MAX_QUARTERLY_REPORTS ;;
             setitem data (lit "quarterlyReports") trimmed
           else Ok data) ;;
  Ok data.

Definition _trim_financial_reports (response_text : pystr) : result pystr :=
  match loads response_text with
  | None => Ok response_text               (* except JSONDecodeError *)
  | Some data =>
      data <- trim_data data ;;
      Ok (dumps data)
  end.

(** The request helper is outside this module: a call to it is an event,
    and the text it returns is given to the continuation. *)
Inductive api (A : Type) : Type :=
| Return (r : result A)
| MakeApiRequest (function_name : pystr) (params : list (pystr * pystr))
                 (k : pystr -> api A).

Arguments Return {A} r.
Arguments MakeApiRequest {A} function_name params k.

Definition get_fundamentals (ticker : pystr) (curr_date : option pystr)
  : api pystr :=
  let params := [(lit "symbol", ticker)] in
  MakeApiRequest (lit "OVERVIEW") params (fun text => Return (Ok text)).

Definition get_balance_sheet (ticker : pystr) (freq : pystr)
  (curr_date : option pystr) : api pystr :=
  let params := [(lit "symbol", ticker)] in
  MakeApiRequest (lit "BALANCE_SHEET") params
    (fun text => Return (_trim_financial_reports text)).

Definition get_cashflow (ticker : pystr) (freq : pystr)
  (curr_date : option pystr) : api pystr :=
  let params := [(lit "symbol", ticker)] in
  MakeApiRequest (lit "CASH_FLOW") params
    (fun text => Return (_trim_financial_reports text)).

Definition get_income_statement (ticker : pystr) (freq : pystr)
  (curr_date : option pystr) : api pystr :=
  let params := [(lit "symbol", ticker)] in
  MakeApiRequest (lit "INCOME_STATEMENT") params
    (fun text => Return (_trim_financial_reports text)).

(** One call recorded: the report type and the parameter mapping. *)
Definition call : Type := pystr * list (pystr * pystr).

(** Running a retrieval function against a request helper: the calls made
    to the helper, in order, and the outcome.  An exception of the helper
    ends the run and is the outcome. *)
Fixpoint run {A : Type} (_make_api_request : pystr -> list (pystr * pystr) -> result pystr)
  (m : api A) : list call * result A :=
  match m with
  | Return r => ([], r)
  | MakeApiRequest function_name params k =>
      match _make_api_request function_name params with
      | Ok text =>
          let (calls, r) := run _make_api_request (k text) in
          ((function_name, params) :: calls, r)
      | Raise e => ([(function_name, params)], Raise e)
      end
  end.

(** ** Well-formed data *)

(** The keys of a dict are pairwise distinct. *)
Fixpoint distinct_keys (d : list (pystr * value)) : bool :=
  match d with
  | [] => true
  | (k, _) :: d' =>
      match dict_get d' k with
      | Some _ => false
      | None => distinct_keys d'
      end
  end.

(** Data whose strings are [str_ok] and whose dicts have distinct keys. *)
Fixpoint value_ok (v : value) : bool :=
  match v with
  | VStr s => str_ok s
  | VList l => forallb value_ok l
  | VDict d =>
      distinct_keys d
      && forallb (fun kv => str_ok (fst kv) && value_ok (snd kv)) d
  | _ => true
  end.

(** The nesting depth of a value. *)
Fixpoint depth (v : value) : nat :=
  match v with
  | VList l => S (fold_right (fun x m => Nat.max (depth x) m) O l)
  | VDict d => S (fold_right (fun kv m => Nat.max (depth (snd kv)) m) O d)
  | _ => 1%nat
  end.

(** ** The data the trimmer accepts *)

(** What a slice is taken of without an exception: a list, a string, or
    a field that is absent. *)
Definition sliceable (x : option value) : bool :=
  match x with
  | None | Some (VList _) | Some (VStr _) => true
  | Some _ => false
  end.

(** The data on which the two [if] statements raise nothing: an object
    whose report fields are sliceable, a list without the two field names
    among its elements, a string without them as substrings. *)
Definition trimmable (data : value) : bool :=
  match data with
  | VDict d =>
      sliceable (dict_get d (lit "annualReports"))
      && sliceable (dict_get d (lit "quarterlyReports"))
  | VList l =>
      negb (existsb (eq_str (lit "annualReports")) l)
      && negb (existsb (eq_str (lit "quarterlyReports")) l)
  | VStr s =>
      negb (is_substring (lit "annualReports") s)
      && negb (is_substring (lit "quarterlyReports") s)
  | VNone | VBool _ | VInt _ | VFloat _ => false
  end.

(** The exception of [x[:n]] on a field that is not sliceable. *)
Definition slice_error (x : option value) : exn :=
  match x with
  | Some (VDict _) => dict_slice_error
  | _ => TypeError
  end.

(** The exception of the two [if] statements on data that is not
    trimmable. *)
Definition trim_error (data : value) : exn :=
  match data with
  | VDict d =>
      if sliceable (dict_get d (lit "annualReports"))
      then slice_error (dict_get d (lit "quarterlyReports"))
      else slice_error (dict_get d (lit "annualReports"))
  | _ => TypeError
  end.

(** [x[:n]] on a list or a string. *)
Definition sliced (n : nat) (x : value) : value :=
  match x with
  | VList l => VList (firstn n l)
  | VStr s => VStr (firstn n s)
  | _ => x
  end.

(** A dict with the field [key], when present, cut to [limit] items. *)
Definition cut_field (key : pystr) (limit : nat) (d : list (pystr * value))
  : list (pystr * value) :=
  match dict_get d key with
  | Some x => dict_set d key (sliced limit x)
  | None => d
  end.

(** The data after the two [if] statements, on trimmable data. *)
Definition trimmed (data : value) : value :=
  match data with
  | VDict d =>
      VDict (cut_field (lit "quarterlyReports") MAX_QUARTERLY_REPORTS
               (cut_field (lit "annualReports") MAX_ANNUAL_REPORTS d))
  | _ => data
  end.

(** A report field within its limit, or absent. *)
Definition within (limit : nat) (x : option value) : bool :=
  match x with
  | None => true
  | Some (VList l) => (List.length l <=? limit)%nat
  | Some (VStr s) => (List.length s <=? limit)%nat
  | Some _ => false
  end.

(** An object whose report fields are within the two limits. *)
Definition within_limits (d : list (pystr * value)) : bool :=
  within MAX_ANNUAL_REPORTS (dict_get d (lit "annualReports"))
  && within MAX_QUARTERLY_REPORTS (dict_get d (lit "quarterlyReports")).

(** ** Predicates of the proofs on data *)

(** An entry of a dict: its key and its value are well formed. *)
Definition entry_ok (kv : pystr * value) : bool :=
  str_ok (fst kv) && value_ok (snd kv).

(** [scan] reads back the values of [vs], written at the level below
    [level]. *)
Definition scans (scan : pystr -> option (value * pystr)) (level : nat)
  (vs : list value) : Prop :=
  Forall (fun v => forall rest, number_end rest ->
                   scan (iterencode v (S level) ++ rest) = Some (v, rest)) vs.

(** A member of an object after the first, as the encoder writes it at
    the level below [level]. *)
Definition member (level : nat) (kv : pystr * value) : pystr :=
  COMMA :: newline_indent (S level)
  ++ encode_basestring_ascii (fst kv) ++ [COLON; SPACE]
  ++ iterencode (snd kv) (S level).

(** A scanner that consumes input: what is left is shorter. *)
Definition consuming (scan : pystr -> option (value * pystr)) : Prop :=
  forall s v rest, scan s = Some (v, rest) ->
                   (List.length rest < List.length s)%nat.

(** * Properties *)

(** ** Strings, digits and escapes *)

Lemma pystr_eqb_eq (a b : pystr) : pystr_eqb a b = true <-> a = b.
Proof.
  revert b; induction a as [|x a IH]; intros [|y b]; simpl;
    split; try congruence; intros H.
  - apply andb_true_iff in H as [H1 H2].
    apply N.eqb_eq in H1. apply IH in H2. congruence.
  - inversion H; subst. rewrite N.eqb_refl. simpl. now apply IH.
Qed.

Lemma pystr_eqb_refl (a : pystr) : pystr_eqb a a = true.
Proof. now apply pystr_eqb_eq. Qed.

Lemma pystr_eqb_neq (a b : pystr) : pystr_eqb a b = false <-> a <> b.
Proof.
  destruct (pystr_eqb a b) eqn:E; split; intros H; try congruence.
  - exfalso. apply H. now apply pystr_eqb_eq.
  - intros ->. rewrite pystr_eqb_refl in E. discriminate.
Qed.

Lemma pystr_eqb_sym (a b : pystr) : pystr_eqb a b = pystr_eqb b a.
Proof.
  destruct (pystr_eqb b a) eqn:E.
  - apply pystr_eqb_eq in E. subst. apply pystr_eqb_refl.
  - apply pystr_eqb_neq in E. apply pystr_eqb_neq. congruence.
Qed.

(** Quotient and remainder named, so that [lia] sees variables only. *)
Lemma N_divmod_spec (n d : N) :
  d <> 0 -> exists q r, n / d = q /\ n mod d = r /\ n = d * q + r /\ r < d.
Proof.
  intros Hd. exists (n / d), (n mod d). repeat split.
  - apply N.div_mod'.
  - now apply N.mod_upper_bound.
Qed.

Ltac name_divmod n d :=
  let q := fresh "q" in let r := fresh "r" in
  let Hq := fresh "Hq" in let Hr := fresh "Hr" in
  let E := fresh "E" in let L := fresh "L" in
  destruct (N_divmod_spec n d) as (q & r & Hq & Hr & E & L);
  [ lia | rewrite ?Hq, ?Hr in *; clear Hq Hr ].

Lemma take_digits_app (ds rest : pystr) :
  all_digits ds -> no_digit_ahead rest -> take_digits (ds ++ rest) = (ds, rest).
Proof.
  intros Hds Hrest. induction Hds as [|c ds Hc _ IH]; simpl.
  - destruct rest as [|c rest]; simpl in *; [reflexivity|]. now rewrite Hrest.
  - now rewrite Hc, IH.
Qed.

Lemma take_digits_spec (s : pystr) :
  all_digits (fst (take_digits s)) /\ no_digit_ahead (snd (take_digits s))
  /\ s = fst (take_digits s) ++ snd (take_digits s).
Proof.
  induction s as [|c s IH]; simpl.
  - repeat split. constructor.
  - destruct (is_digit c) eqn:Hc.
    + destruct (take_digits s) as [ds r]; simpl in *.
      destruct IH as (H1 & H2 & H3). repeat split; auto.
      * now constructor.
      * now f_equal.
    + simpl. repeat split; auto. constructor.
Qed.

Lemma digits_value_snoc (ds : pystr) (c : N) :
  digits_value (ds ++ [c]) = 10 * digits_value ds + (c - 48).
Proof. unfold digits_value. now rewrite fold_left_app. Qed.

Lemma digits_of_acc (fuel : nat) :
  forall n acc, digits_of fuel n acc = digits_of fuel n [] ++ acc.
Proof.
  induction fuel as [|f IH]; intros n acc; simpl; [reflexivity|].
  destruct (n <? 10); [reflexivity|].
  rewrite IH. rewrite (IH _ [_]). now rewrite <- app_assoc.
Qed.

Lemma digits_of_step (f : nat) (n : N) :
  digits_of (S f) n [] =
  if n <? 10 then [48 + n] else digits_of f (n / 10) [] ++ [48 + n mod 10].
Proof.
  simpl. destruct (n <? 10) eqn:E.
  - apply N.ltb_lt in E. now rewrite N.mod_small.
  - apply digits_of_acc.
Qed.

(** With enough fuel, [digits_of] writes the digits of [n]: they denote
    [n], and the first one is 0 only for [n = 0], which is written as a
    single digit. *)
Lemma digits_of_spec (f : nat) :
  forall n, n < 2 ^ N.of_nat (S f) ->
  exists d ds,
    digits_of (S f) n [] = d :: ds
    /\ all_digits (d :: ds)
    /\ digits_value (d :: ds) = n
    /\ (n = 0 -> d = 48 /\ ds = [])
    /\ (0 < n -> 49 <= d).
Proof.
  assert (single : forall n, n < 10 ->
            exists d ds, [48 + n] = d :: ds
              /\ all_digits (d :: ds) /\ digits_value (d :: ds) = n
              /\ (n = 0 -> d = 48 /\ ds = []) /\ (0 < n -> 49 <= d)).
  { intros n Hlt. exists (48 + n), [].
    split; [reflexivity|]. split; [|split; [|split]].
    - constructor; [|constructor]. unfold is_digit.
      apply andb_true_iff; split; apply N.leb_le; lia.
    - unfold digits_value; cbn [fold_left]. lia.
    - intros ->. now split.
    - intros H. lia. }
  induction f as [|f IH]; intros n Hn; rewrite digits_of_step.
  - assert (n < 10) as Hlt by (change (2 ^ N.of_nat 1) with 2 in Hn; lia).
    rewrite (proj2 (N.ltb_lt _ _) Hlt). now apply single.
  - destruct (n <? 10) eqn:Hlt.
    + apply N.ltb_lt in Hlt. now apply single.
    + apply N.ltb_ge in Hlt.
      rewrite Nat2N.inj_succ, N.pow_succ_r' in Hn.
      name_divmod n 10.
      destruct (IH q) as (d & ds & E1 & E2 & E3 & _ & E5); [lia|].
      rewrite E1. exists d, (ds ++ [48 + r]).
      split; [reflexivity|]. split; [|split; [|split]].
      * apply Forall_app with (l1 := d :: ds). split; [assumption|].
        constructor; [|constructor]. unfold is_digit.
        apply andb_true_iff; split; apply N.leb_le; lia.
      * change (d :: ds ++ [48 + r]) with ((d :: ds) ++ [48 + r]).
        rewrite digits_value_snoc, E3. lia.
      * intros H. lia.
      * intros _. apply E5. lia.
Qed.

Lemma pos_lt_pow2_size (p : positive) :
  N.pos p < 2 ^ N.of_nat (Pos.size_nat p).
Proof.
  induction p as [p IH|p IH|]; cbn [Pos.size_nat];
    rewrite ?Nat2N.inj_succ, ?N.pow_succ_r'; lia.
Qed.

Lemma nat_repr_spec (n : N) :
  exists d ds,
    nat_repr n = d :: ds
    /\ all_digits (d :: ds)
    /\ digits_value (d :: ds) = n
    /\ (n = 0 -> d = 48 /\ ds = [])
    /\ (0 < n -> 49 <= d).
Proof.
  unfold nat_repr. apply digits_of_spec.
  rewrite Nat2N.inj_succ. rewrite N.pow_succ_r'.
  assert (n < 2 ^ N.of_nat (N.size_nat n)); [|lia].
  destruct n as [|p]; [reflexivity|]. apply pos_lt_pow2_size.
Qed.

Lemma is_digit_bounds (c : N) : is_digit c = true <-> 48 <= c <= 57.
Proof.
  unfold is_digit. rewrite andb_true_iff, !N.leb_le. tauto.
Qed.

(** [hex4] reads back what [u_escape] wrote. *)
Lemma hex_value_digit (d : N) : d < 16 -> hex_value (hex_digit d) = Some d.
Proof.
  intros Hd. unfold hex_digit, hex_value.
  destruct (d <? 10) eqn:E.
  - apply N.ltb_lt in E.
    replace ((48 <=? 48 + d) && (48 + d <=? 57)) with true.
    + f_equal. lia.
    + symmetry. apply andb_true_iff; split; apply N.leb_le; lia.
  - apply N.ltb_ge in E.
    replace ((48 <=? 87 + d) && (87 + d <=? 57)) with false.
    + replace ((97 <=? 87 + d) && (87 + d <=? 102)) with true.
      * f_equal. lia.
      * symmetry. apply andb_true_iff; split; apply N.leb_le; lia.
    + symmetry. apply andb_false_iff. right. apply N.leb_gt. lia.
Qed.

Lemma hex4_u_escape (n : N) :
  n < 0x10000 ->
  exists h1 h2 h3 h4,
    u_escape n = [BACKSLASH; 117; h1; h2; h3; h4] /\ hex4 h1 h2 h3 h4 = Some n.
Proof.
  intros Hn. unfold u_escape. do 4 eexists. split; [reflexivity|].
  unfold hex4.
  rewrite !hex_value_digit by (apply N.mod_upper_bound; lia).
  f_equal.
  replace (n / 4096) with (n / 16 / 16 / 16)
    by (rewrite !N.Div0.div_div; reflexivity).
  replace (n / 256) with (n / 16 / 16)
    by (rewrite !N.Div0.div_div; reflexivity).
  name_divmod n 16. name_divmod q 16. name_divmod q0 16. name_divmod q1 16.
  lia.
Qed.

(** ** Strings: the scanner reads back what the encoder wrote *)

Lemma scanstring_cons (c : N) (rest : pystr) :
  scanstring (c :: rest) =
  if c =? QUOTE then Some ([], rest)
  else if c =? BACKSLASH then
    match rest with
    | [] => None
    | esc :: rest1 =>
        if esc =? 117 then
          match rest1 with
          | h1 :: h2 :: h3 :: h4 :: rest2 =>
              match hex4 h1 h2 h3 h4 with
              | None => None
              | Some uni =>
                  if is_high_surrogate uni then
                    match rest2 with
                    | b :: u :: rest3 =>
                        if (b =? BACKSLASH) && (u =? 117) then
                          match rest3 with
                          | l1 :: l2 :: l3 :: l4 :: rest4 =>
                              match hex4 l1 l2 l3 l4 with
                              | None => None
                              | Some uni2 =>
                                  if is_low_surrogate uni2
                                  then push (join_surrogates uni uni2) (scanstring rest4)
                                  else push uni (scanstring rest2)
                              end
                          | _ => None
                          end
                        else push uni (scanstring rest2)
                    | _ => push uni (scanstring rest2)
                    end
                  else push uni (scanstring rest2)
              end
          | _ => None
          end
        else
          match backslash esc with
          | Some char => push char (scanstring rest1)
          | None => None
          end
    end
  else if c <? 32 then None
  else push c (scanstring rest).
Proof. reflexivity. Qed.

Lemma lor_shiftl_add (a b n : N) :
  b < 2 ^ n -> N.lor (N.shiftl a n) b = a * 2 ^ n + b.
Proof.
  intros Hb.
  assert (N.land (N.shiftl a n) b = 0) as Hland.
  { apply N.bits_inj. intros i. rewrite N.land_spec, N.bits_0.
    destruct (N.lt_ge_cases i n) as [Hi|Hi].
    - now rewrite N.shiftl_spec_low.
    - rewrite <- (N.mod_small b (2 ^ n)) by assumption.
      rewrite N.mod_pow2_bits_high by assumption. apply andb_false_r. }
  rewrite <- N.lxor_lor by assumption.
  rewrite <- N.add_nocarry_lxor by assumption.
  now rewrite N.shiftl_mul_pow2.
Qed.

(** The two halves [py_encode_basestring_ascii] writes for a code point
    above the basic plane, and what [scanstring] makes of them. *)
Lemma surrogate_halves (c : N) :
  0x10000 <= c -> c < 0x110000 ->
  exists q r,
    q < 1024 /\ r < 1024
    /\ N.lor 0xd800 (N.land (N.shiftr (c - 0x10000) 10) 0x3ff) = 0xd800 + q
    /\ N.lor 0xdc00 (N.land (c - 0x10000) 0x3ff) = 0xdc00 + r
    /\ join_surrogates (0xd800 + q) (0xdc00 + r) = c.
Proof.
  intros Hlo Hhi.
  destruct (N_divmod_spec (c - 0x10000) 1024) as (q & r & Hq & Hr & E & L);
    [discriminate|].
  exists q, r.
  assert (q < 1024) as Bq by (clear Hq Hr; lia).
  split; [assumption|]. split; [assumption|]. split; [|split].
  - change 0x3ff with (N.ones 10). rewrite N.land_ones.
    rewrite N.shiftr_div_pow2. change (2 ^ 10) with 1024. rewrite Hq.
    rewrite N.mod_small by assumption.
    change 0xd800 with (N.shiftl 54 10) at 1.
    now rewrite lor_shiftl_add by assumption.
  - change 0x3ff with (N.ones 10). rewrite N.land_ones.
    change (2 ^ 10) with 1024. rewrite Hr.
    change 0xdc00 with (N.shiftl 55 10) at 1.
    now rewrite lor_shiftl_add by assumption.
  - unfold join_surrogates.
    replace (0xd800 + q - 0xd800) with q by lia.
    replace (0xdc00 + r - 0xdc00) with r by lia.
    rewrite lor_shiftl_add by assumption. change (2 ^ 10) with 1024.
    clear Hq Hr. lia.
Qed.

Lemma scanstring_u_escape (uni h1 h2 h3 h4 : N) (tail : pystr) :
  hex4 h1 h2 h3 h4 = Some uni ->
  (is_high_surrogate uni = true -> no_low_escape_ahead tail) ->
  scanstring (BACKSLASH :: 117 :: h1 :: h2 :: h3 :: h4 :: tail)
  = push uni (scanstring tail).
Proof.
  intros Hhex Hnext. rewrite scanstring_cons.
  change (BACKSLASH =? QUOTE) with false. change (BACKSLASH =? BACKSLASH) with true.
  change (117 =? 117) with true. cbv iota. rewrite Hhex.
  destruct (is_high_surrogate uni) eqn:Hhigh; [|reflexivity].
  specialize (Hnext eq_refl).
  destruct tail as [|b [|u rest3]]; try reflexivity.
  destruct ((b =? BACKSLASH) && (u =? 117)) eqn:Hbu; [|reflexivity].
  apply andb_true_iff in Hbu as [Hb Hu].
  apply N.eqb_eq in Hb, Hu. subst b u.
  rewrite (scanstring_cons BACKSLASH).
  change (BACKSLASH =? QUOTE) with false. change (BACKSLASH =? BACKSLASH) with true.
  change (117 =? 117) with true. cbv iota.
  destruct rest3 as [|l1 [|l2 [|l3 [|l4 rest4]]]]; try reflexivity.
  simpl in Hnext.
  destruct (hex4 l1 l2 l3 l4) as [uni2|] eqn:Hhex2; [|reflexivity].
  rewrite (Hnext eq_refl eq_refl uni2 eq_refl). reflexivity.
Qed.

Lemma escape_char_shape (c : N) :
  c < 0x110000 -> escape_shape c (escape_char c).
Proof.
  intros Hc. unfold escape_char.
  destruct (c =? BACKSLASH) eqn:E1.
  { apply N.eqb_eq in E1; subst c. now apply shape_short. }
  destruct (c =? QUOTE) eqn:E2.
  { apply N.eqb_eq in E2; subst c. now apply shape_short. }
  apply N.eqb_neq in E1, E2.
  destruct ((SPACE <=? c) && (c <=? 126)) eqn:E3.
  { apply andb_true_iff in E3 as [E3 E4]. apply N.leb_le in E3, E4.
    now apply shape_plain. }
  destruct (c =? 8) eqn:E4.
  { apply N.eqb_eq in E4; subst c. now apply shape_short. }
  destruct (c =? 12) eqn:E5.
  { apply N.eqb_eq in E5; subst c. now apply shape_short. }
  destruct (c =? 10) eqn:E6.
  { apply N.eqb_eq in E6; subst c. now apply shape_short. }
  destruct (c =? 13) eqn:E7.
  { apply N.eqb_eq in E7; subst c. now apply shape_short. }
  destruct (c =? 9) eqn:E8.
  { apply N.eqb_eq in E8; subst c. now apply shape_short. }
  destruct (c <? 0x10000) eqn:E9.
  { apply N.ltb_lt in E9.
    destruct (hex4_u_escape c E9) as (h1 & h2 & h3 & h4 & -> & Hhex).
    now apply shape_u. }
  apply N.ltb_ge in E9. cbv zeta.
  destruct (surrogate_halves c E9 Hc) as (q & r & Hq & Hr & -> & -> & Hj).
  destruct (hex4_u_escape (0xd800 + q)) as (h1 & h2 & h3 & h4 & -> & Hhex1);
    [lia|].
  destruct (hex4_u_escape (0xdc00 + r)) as (l1 & l2 & l3 & l4 & -> & Hhex2);
    [lia|].
  apply shape_pair with (s1 := 0xd800 + q) (s2 := 0xdc00 + r); auto.
  - unfold is_high_surrogate. apply andb_true_iff; split; apply N.leb_le; lia.
  - unfold is_low_surrogate. apply andb_true_iff; split; apply N.leb_le; lia.
Qed.

Lemma high_not_low (c : N) : is_high_surrogate c = true -> is_low_surrogate c = false.
Proof.
  unfold is_high_surrogate, is_low_surrogate. intros H.
  apply andb_true_iff in H as [_ H]. apply N.leb_le in H.
  apply andb_false_iff. left. apply N.leb_gt. lia.
Qed.

Lemma backslash_not_u (e c : N) : backslash e = Some c -> e <> 117.
Proof. intros H ->. discriminate H. Qed.

(** The one-letter escapes never denote a surrogate. *)
Lemma backslash_small (e c : N) : backslash e = Some c -> c < 128.
Proof.
  unfold backslash. intros H.
  repeat match type of H with
         | (if ?b then _ else _) = _ => destruct b
         end; inversion H; subst; reflexivity.
Qed.

Lemma scanstring_escape (c : N) (e tail : pystr) :
  escape_shape c e ->
  (is_high_surrogate c = true -> no_low_escape_ahead tail) ->
  scanstring (e ++ tail) = push c (scanstring tail).
Proof.
  intros Hshape Hnext. destruct Hshape.
  - simpl app. rewrite scanstring_cons.
    change (BACKSLASH =? QUOTE) with false.
    change (BACKSLASH =? BACKSLASH) with true. cbv iota.
    rewrite (proj2 (N.eqb_neq e 117)) by assumption.
    now rewrite H.
  - simpl app. rewrite scanstring_cons.
    rewrite (proj2 (N.eqb_neq c QUOTE)) by assumption.
    rewrite (proj2 (N.eqb_neq c BACKSLASH)) by assumption.
    now rewrite (proj2 (N.ltb_ge c 32)) by assumption.
  - simpl app. now apply scanstring_u_escape.
  - simpl app. rewrite scanstring_cons.
    change (BACKSLASH =? QUOTE) with false.
    change (BACKSLASH =? BACKSLASH) with true.
    change (117 =? 117) with true. cbv iota.
    rewrite H, H1. cbn [andb].
    change (BACKSLASH =? BACKSLASH) with true.
    change (117 =? 117) with true. cbn [andb]. cbv iota.
    now rewrite H0, H2, H3.
Qed.

(** An escape never begins like the escape of a low surrogate, unless
    it is one. *)
Lemma escape_no_low_ahead (c : N) (e tail : pystr) :
  escape_shape c e -> is_low_surrogate c = false ->
  no_low_escape_ahead (e ++ tail).
Proof.
  intros Hshape Hlow. destruct Hshape; simpl app.
  - destruct tail as [|? [|? [|? [|? ?]]]]; simpl; auto.
    intros _ Hu. contradiction.
  - destruct tail as [|? [|? [|? [|? [|? ?]]]]]; simpl; auto.
    intros Hc. contradiction.
  - simpl. intros _ _ uni2 Huni. congruence.
  - simpl. intros _ _ uni2 Huni.
    assert (uni2 = s1) by congruence. subst. now apply high_not_low.
Qed.

Lemma quote_no_low_ahead (rest : pystr) : no_low_escape_ahead (QUOTE :: rest).
Proof.
  destruct rest as [|? [|? [|? [|? [|? ?]]]]]; simpl; auto.
  intros H. discriminate H.
Qed.

Lemma str_ok_cons (c : N) (s : pystr) :
  str_ok (c :: s) = true ->
  c < 0x110000 /\ str_ok s = true
  /\ (is_high_surrogate c = true ->
      match s with c' :: _ => is_low_surrogate c' = false | [] => True end).
Proof.
  cbn [str_ok]. intros H.
  apply andb_true_iff in H as [H H3]. apply andb_true_iff in H as [H1 H2].
  apply N.ltb_lt in H1. split; [assumption|]. split; [assumption|].
  intros Hhigh. rewrite Hhigh in H2. destruct s as [|c' s]; [trivial|].
  simpl in H2. now destruct (is_low_surrogate c').
Qed.

(** [scanstring] reads back what [py_encode_basestring_ascii] wrote. *)
Lemma scanstring_encode (s rest : pystr) :
  str_ok s = true ->
  scanstring (flat_map escape_char s ++ QUOTE :: rest) = Some (s, rest).
Proof.
  induction s as [|c s IH]; intros Hok.
  - reflexivity.
  - apply str_ok_cons in Hok as (Hc & Hs & Hpair).
    cbn [flat_map]. rewrite <- app_assoc.
    rewrite (scanstring_escape c).
    + now rewrite IH.
    + now apply escape_char_shape.
    + intros Hhigh. specialize (Hpair Hhigh).
      destruct s as [|c' s]; [apply quote_no_low_ahead|].
      cbn [flat_map]. rewrite <- app_assoc.
      apply escape_no_low_ahead with (c := c'); [|assumption].
      apply escape_char_shape.
      apply str_ok_cons in Hs. tauto.
Qed.

(** ** Numbers *)

Lemma number_end_no_digit (rest : pystr) : number_end rest -> no_digit_ahead rest.
Proof. destruct rest; simpl; tauto. Qed.

Lemma take_digits_extend (s rest : pystr) :
  (snd (take_digits s) = [] -> no_digit_ahead rest) ->
  take_digits (s ++ rest) = (fst (take_digits s), snd (take_digits s) ++ rest).
Proof.
  induction s as [|c s IH]; simpl; intros H.
  - specialize (H eq_refl). destruct rest as [|c rest]; [reflexivity|].
    simpl in *. now rewrite H.
  - destruct (is_digit c); [|reflexivity].
    destruct (take_digits s) as [ds r]; simpl in *. now rewrite IH.
Qed.

Lemma match_integer_extend (s rest int r : pystr) :
  match_integer s = Some (int, r) -> no_digit_ahead rest ->
  match_integer (s ++ rest) = Some (int, r ++ rest).
Proof.
  intros H Hrest. destruct s as [|c s]; [discriminate|]. simpl in *.
  destruct (c =? ZERO); [now inversion H|].
  destruct (is_digit c); [|discriminate].
  rewrite take_digits_extend by (intros _; assumption).
  destruct (take_digits s) as [ds r']; simpl. now inversion H.
Qed.

Lemma match_frac_extend (s rest frac r : pystr) :
  match_frac s = (frac, r) -> number_end rest ->
  match_frac (s ++ rest) = (frac, r ++ rest).
Proof.
  intros H Hrest. destruct s as [|c s].
  - inversion H; subst. destruct rest as [|c rest]; [reflexivity|].
    simpl in *. destruct Hrest as (_ & Hdot & _).
    now rewrite (proj2 (N.eqb_neq c DOT)).
  - simpl in *. destruct (c =? DOT); [|now inversion H].
    rewrite take_digits_extend by (intros _; now apply number_end_no_digit).
    destruct (take_digits s) as [[|d ds] r']; simpl in *; now inversion H.
Qed.

Lemma match_exp_extend (s rest exp : pystr) :
  match_exp s = (exp, []) -> number_end rest ->
  match_exp (s ++ rest) = (exp, rest).
Proof.
  intros H Hrest. destruct s as [|c s].
  - inversion H; subst. destruct rest as [|c rest]; [reflexivity|].
    simpl in *. destruct Hrest as (_ & _ & He & HE).
    rewrite (proj2 (N.eqb_neq c 101)), (proj2 (N.eqb_neq c 69)) by assumption.
    reflexivity.
  - unfold match_exp in H. cbn [app]. unfold match_exp.
    destruct ((c =? 101) || (c =? 69)); [|discriminate].
    destruct s as [|sign s]; [discriminate|]. cbn [app].
    destruct ((sign =? MINUS) || (sign =? PLUS)).
    + rewrite take_digits_extend by (intros _; now apply number_end_no_digit).
      destruct (take_digits s) as [[|d ds] r']; simpl in *;
        inversion H; subst; reflexivity.
    + change (sign :: s ++ rest) with ((sign :: s) ++ rest).
      rewrite take_digits_extend by (intros _; now apply number_end_no_digit).
      destruct (take_digits (sign :: s)) as [[|d ds] r']; simpl in *;
        inversion H; subst; reflexivity.
Qed.

(** A match that reaches the end of the text is the same match when
    more input follows that does not go on like a number. *)
Lemma match_number_extend (text rest integer frac exp : pystr) :
  match_number text = Some (integer, frac, exp, []) -> number_end rest ->
  match_number (text ++ rest) = Some (integer, frac, exp, rest).
Proof.
  intros H Hrest.
  assert (signed : forall sign s,
    match match_integer s with
    | Some (int, r1) =>
        let (frac, r2) := match_frac r1 in
        let (exp, r3) := match_exp r2 in Some (sign ++ int, frac, exp, r3)
    | None => None
    end = Some (integer, frac, exp, []) ->
    match match_integer (s ++ rest) with
    | Some (int, r1) =>
        let (frac, r2) := match_frac r1 in
        let (exp, r3) := match_exp r2 in Some (sign ++ int, frac, exp, r3)
    | None => None
    end = Some (integer, frac, exp, rest)).
  { intros sign s Hs.
    destruct (match_integer s) as [[int r1]|] eqn:E1; [|discriminate].
    rewrite (match_integer_extend _ _ _ _ E1 (number_end_no_digit _ Hrest)).
    destruct (match_frac r1) as [fr r2] eqn:E2.
    rewrite (match_frac_extend _ _ _ _ E2 Hrest).
    destruct (match_exp r2) as [ex r3] eqn:E3.
    inversion Hs; subst.
    now rewrite (match_exp_extend _ _ _ E3 Hrest). }
  unfold match_number in *. destruct text as [|c text]; [discriminate|].
  cbn [app]. cbv beta iota zeta in *. destruct (c =? MINUS).
  - exact (signed [c] text H).
  - exact (signed [] (c :: text) H).
Qed.

Lemma match_integer_app (s int r : pystr) :
  match_integer s = Some (int, r) -> s = int ++ r.
Proof.
  destruct s as [|c s]; simpl; [discriminate|].
  destruct (c =? ZERO); [intros H; now inversion H|].
  destruct (is_digit c); [|discriminate].
  pose proof (take_digits_spec s) as (_ & _ & E).
  destruct (take_digits s) as [ds r']; simpl in E.
  intros H; inversion H; subst. reflexivity.
Qed.

Lemma match_frac_app (s frac r : pystr) : match_frac s = (frac, r) -> s = frac ++ r.
Proof.
  destruct s as [|c s]; simpl; [intros H; now inversion H|].
  destruct (c =? DOT); [|intros H; now inversion H].
  pose proof (take_digits_spec s) as (_ & _ & E).
  destruct (take_digits s) as [[|d ds] r']; simpl in E;
    intros H; inversion H; subst; reflexivity.
Qed.

Lemma match_exp_app (s exp r : pystr) : match_exp s = (exp, r) -> s = exp ++ r.
Proof.
  destruct s as [|c s]; simpl; [intros H; now inversion H|].
  destruct ((c =? 101) || (c =? 69)); [|intros H; now inversion H].
  destruct s as [|sign s]; [intros H; now inversion H|].
  destruct ((sign =? MINUS) || (sign =? PLUS)).
  - pose proof (take_digits_spec s) as (_ & _ & E).
    destruct (take_digits s) as [[|d ds] r']; simpl in E;
      intros H; inversion H; subst; reflexivity.
  - pose proof (take_digits_spec (sign :: s)) as (_ & _ & E).
    destruct (take_digits (sign :: s)) as [[|d ds] r']; simpl in E;
      intros H; inversion H; subst; try reflexivity.
    simpl. now rewrite E.
Qed.

(** The groups of a match, in order, are the text matched. *)
Lemma match_number_app (s integer frac exp r : pystr) :
  match_number s = Some (integer, frac, exp, r) ->
  s = integer ++ frac ++ exp ++ r.
Proof.
  assert (signed : forall sign s0,
    match match_integer s0 with
    | Some (int, r1) =>
        let (frac, r2) := match_frac r1 in
        let (exp, r3) := match_exp r2 in Some (sign ++ int, frac, exp, r3)
    | None => None
    end = Some (integer, frac, exp, r) ->
    sign ++ s0 = integer ++ frac ++ exp ++ r).
  { intros sign s0 Hs.
    destruct (match_integer s0) as [[int r1]|] eqn:E1; [|discriminate].
    destruct (match_frac r1) as [fr r2] eqn:E2.
    destruct (match_exp r2) as [ex r3] eqn:E3.
    inversion Hs; subst.
    apply match_integer_app in E1. apply match_frac_app in E2.
    apply match_exp_app in E3. subst. now rewrite <- app_assoc. }
  unfold match_number. destruct s as [|c s]; [discriminate|].
  cbv beta iota zeta. destruct (c =? MINUS).
  - intros H. exact (signed [c] s H).
  - intros H. exact (signed [] (c :: s) H).
Qed.

Lemma match_number_head (s integer frac exp r : pystr) :
  match_number s = Some (integer, frac, exp, r) ->
  exists c tl, s = c :: tl /\ (c = MINUS \/ is_digit c = true).
Proof.
  unfold match_number. destruct s as [|c s]; [discriminate|].
  cbv beta iota zeta. intros H. exists c, s. split; [reflexivity|].
  destruct (c =? MINUS) eqn:Ec; [left; now apply N.eqb_eq|right].
  simpl in H. destruct (c =? ZERO) eqn:E0.
  - apply N.eqb_eq in E0. now subst.
  - destruct (is_digit c); [reflexivity|discriminate].
Qed.

Lemma match_integer_nat_repr (n : N) :
  match_integer (nat_repr n) = Some (nat_repr n, []).
Proof.
  destruct (nat_repr_spec n) as (d & ds & -> & Hall & _ & Hzero & Hpos).
  simpl. destruct (N.eq_0_gt_0_cases n) as [Hn|Hn].
  - destruct (Hzero Hn) as [-> ->]. reflexivity.
  - specialize (Hpos Hn).
    rewrite (proj2 (N.eqb_neq d ZERO)) by lia.
    inversion Hall as [|? ? Hd Hds]; subst. rewrite Hd.
    rewrite <- (app_nil_r ds) at 1.
    now rewrite take_digits_app.
Qed.

Lemma nat_repr_head (n : N) :
  exists d ds, nat_repr n = d :: ds /\ is_digit d = true.
Proof.
  destruct (nat_repr_spec n) as (d & ds & E & Hall & _).
  exists d, ds. split; [assumption|]. now inversion Hall.
Qed.

Lemma match_number_nat_repr (n : N) :
  match_number (nat_repr n) = Some (nat_repr n, [], [], []).
Proof.
  pose proof (match_integer_nat_repr n) as Hint.
  destruct (nat_repr_head n) as (d & ds & E & Hd). rewrite E in *.
  unfold match_number.
  apply is_digit_bounds in Hd.
  rewrite (proj2 (N.eqb_neq d MINUS)) by lia.
  now rewrite Hint.
Qed.

Lemma match_number_int_repr (z : Z) :
  match_number (int_repr z) = Some (int_repr z, [], [], []).
Proof.
  destruct z as [|p|p]; cbn [int_repr]; try apply match_number_nat_repr.
  unfold match_number. change (MINUS =? MINUS) with true. cbv iota.
  now rewrite match_integer_nat_repr.
Qed.

Lemma parse_int_nat_repr (n : N) : parse_int (nat_repr n) = Z.of_N n.
Proof.
  destruct (nat_repr_spec n) as (d & ds & E & Hall & Hval & _).
  rewrite E. unfold parse_int.
  apply Forall_inv in Hall. apply is_digit_bounds in Hall.
  rewrite (proj2 (N.eqb_neq d MINUS)) by lia. now rewrite Hval.
Qed.

(** [int(repr(z)) == z] *)
Lemma parse_int_repr (z : Z) : parse_int (int_repr z) = z.
Proof.
  destruct z as [|p|p]; cbn [int_repr].
  - apply parse_int_nat_repr.
  - rewrite parse_int_nat_repr. reflexivity.
  - unfold parse_int. change (MINUS =? MINUS) with true. cbv iota.
    destruct (nat_repr_spec (N.pos p)) as (d & ds & E & _ & Hval & _).
    rewrite E, Hval. reflexivity.
Qed.

(** ** ASCII *)

Lemma all_digits_ascii (ds : pystr) : all_digits ds -> ascii_text ds.
Proof.
  intros H. eapply Forall_impl; [|exact H].
  intros c Hc. apply is_digit_bounds in Hc. lia.
Qed.

Lemma take_digits_ascii (s : pystr) : ascii_text (fst (take_digits s)).
Proof. apply all_digits_ascii. apply take_digits_spec. Qed.

Lemma match_integer_ascii (s int r : pystr) :
  match_integer s = Some (int, r) -> ascii_text int.
Proof.
  destruct s as [|c s]; simpl; [discriminate|].
  destruct (c =? ZERO) eqn:E0.
  - apply N.eqb_eq in E0. intros H; inversion H; subst.
    constructor; [reflexivity|constructor].
  - destruct (is_digit c) eqn:Ed; [|discriminate].
    pose proof (take_digits_ascii s) as Hds.
    destruct (take_digits s) as [ds r']. intros H; inversion H; subst.
    constructor; [|assumption]. apply is_digit_bounds in Ed. lia.
Qed.

Lemma match_frac_ascii (s frac r : pystr) :
  match_frac s = (frac, r) -> ascii_text frac.
Proof.
  destruct s as [|c s]; simpl; [intros H; inversion H; constructor|].
  destruct (c =? DOT) eqn:Ec; [|intros H; inversion H; constructor].
  apply N.eqb_eq in Ec. pose proof (take_digits_ascii s) as Hds.
  destruct (take_digits s) as [[|d ds] r'];
    intros H; inversion H; subst; constructor; [reflexivity|assumption].
Qed.

Lemma match_exp_ascii (s exp r : pystr) :
  match_exp s = (exp, r) -> ascii_text exp.
Proof.
  destruct s as [|c s]; simpl; [intros H; inversion H; constructor|].
  destruct ((c =? 101) || (c =? 69)) eqn:Ec; [|intros H; inversion H; constructor].
  assert (c < 128) as Hc.
  { apply orb_true_iff in Ec as [Ec|Ec]; apply N.eqb_eq in Ec; now subst. }
  destruct s as [|sign s]; [intros H; inversion H; constructor|].
  destruct ((sign =? MINUS) || (sign =? PLUS)) eqn:Es.
  - assert (sign < 128) as Hs.
    { apply orb_true_iff in Es as [Es|Es]; apply N.eqb_eq in Es; now subst. }
    pose proof (take_digits_ascii s) as Hds.
    destruct (take_digits s) as [[|d ds] r'];
      intros H; inversion H; subst; repeat constructor; auto.
    + now inversion Hds.
    + now inversion Hds.
  - pose proof (take_digits_ascii (sign :: s)) as Hds.
    destruct (take_digits (sign :: s)) as [[|d ds] r'];
      intros H; inversion H; subst; constructor; auto.
Qed.

Lemma match_number_ascii (s integer frac exp r : pystr) :
  match_number s = Some (integer, frac, exp, r) ->
  ascii_text (integer ++ frac ++ exp).
Proof.
  assert (signed : forall sign s0, ascii_text sign ->
    match match_integer s0 with
    | Some (int, r1) =>
        let (frac, r2) := match_frac r1 in
        let (exp, r3) := match_exp r2 in Some (sign ++ int, frac, exp, r3)
    | None => None
    end = Some (integer, frac, exp, r) ->
    ascii_text (integer ++ frac ++ exp)).
  { intros sign s0 Hsign Hs.
    destruct (match_integer s0) as [[int r1]|] eqn:E1; [|discriminate].
    destruct (match_frac r1) as [fr r2] eqn:E2.
    destruct (match_exp r2) as [ex r3] eqn:E3.
    inversion Hs; subst.
    apply match_integer_ascii in E1. apply match_frac_ascii in E2.
    apply match_exp_ascii in E3.
    unfold ascii_text in *. rewrite !Forall_app. tauto. }
  unfold match_number. destruct s as [|c s]; [discriminate|].
  cbv beta iota zeta. destruct (c =? MINUS) eqn:Ec.
  - apply N.eqb_eq in Ec. subst. intros H. apply (signed [MINUS] s); [|exact H].
    constructor; [reflexivity|constructor].
  - intros H. apply (signed [] (c :: s)); [constructor|exact H].
Qed.

Lemma nat_repr_ascii (n : N) : ascii_text (nat_repr n).
Proof.
  destruct (nat_repr_spec n) as (d & ds & -> & Hall & _).
  now apply all_digits_ascii.
Qed.

Lemma int_repr_ascii (z : Z) : ascii_text (int_repr z).
Proof.
  destruct z; cbn [int_repr]; try apply nat_repr_ascii.
  constructor; [reflexivity|apply nat_repr_ascii].
Qed.

Lemma hex_digit_ascii (d : N) : d < 16 -> hex_digit d < 128.
Proof. unfold hex_digit. destruct (d <? 10); lia. Qed.

Lemma u_escape_ascii (n : N) : ascii_text (u_escape n).
Proof.
  unfold u_escape.
  repeat (constructor;
          [first [reflexivity
                 | apply hex_digit_ascii; apply N.mod_upper_bound; discriminate]|]).
  constructor.
Qed.

Lemma escape_char_ascii (c : N) : ascii_text (escape_char c).
Proof.
  unfold escape_char.
  repeat match goal with
         | |- context [if ?b then _ else _] => destruct b eqn:?
         end;
    try (repeat constructor; reflexivity);
    try apply u_escape_ascii.
  - match goal with
    | H : (_ <=? _) && (_ <=? _) = true |- _ =>
        apply andb_true_iff in H as [_ H]; apply N.leb_le in H
    end.
    constructor; [lia|constructor].
  - cbv zeta. apply Forall_app; split; apply u_escape_ascii.
Qed.

Lemma encode_basestring_ascii_ascii (s : pystr) :
  ascii_text (encode_basestring_ascii s).
Proof.
  unfold encode_basestring_ascii. constructor; [reflexivity|].
  apply Forall_app; split; [|constructor; [reflexivity|constructor]].
  induction s as [|c s IH]; simpl; [constructor|].
  apply Forall_app; split; [apply escape_char_ascii|assumption].
Qed.

(** ** Values: the scanner reads back what the encoder wrote *)

(** Induction on values, with the elements of a list and of a dict. *)
Lemma value_ind (P : value -> Prop) :
  P VNone ->
  (forall b, P (VBool b)) ->
  (forall z, P (VInt z)) ->
  (forall f, P (VFloat f)) ->
  (forall s, P (VStr s)) ->
  (forall l, Forall P l -> P (VList l)) ->
  (forall d, Forall (fun kv => P (snd kv)) d -> P (VDict d)) ->
  forall v, P v.
Proof.
  intros HN HB HI HF HS HL HD. fix IH 1.
  intros [ |b|z|f|s|l|d];
    [ exact HN | apply HB | apply HI | apply HF | apply HS | apply HL | apply HD ].
  - induction l as [|x l IHl]; constructor; [apply IH|exact IHl].
  - induction d as [|[k x] d IHd]; constructor; [apply IH|exact IHd].
Qed.

Lemma number_head_tests (c : N) (tl : pystr) :
  c = MINUS \/ is_digit c = true ->
  (c =? QUOTE) = false /\ (c =? LBRACE) = false /\ (c =? LBRACKET) = false
  /\ strip_prefix (lit "null") (c :: tl) = None
  /\ strip_prefix (lit "true") (c :: tl) = None
  /\ strip_prefix (lit "false") (c :: tl) = None.
Proof.
  intros [->|H].
  - repeat split; reflexivity.
  - apply is_digit_bounds in H.
    change (lit "null") with (110 :: lit "ull").
    change (lit "true") with (116 :: lit "rue").
    change (lit "false") with (102 :: lit "alse").
    cbn [strip_prefix].
    rewrite (proj2 (N.eqb_neq 110 c)), (proj2 (N.eqb_neq 116 c)),
      (proj2 (N.eqb_neq 102 c)) by lia.
    repeat split; try reflexivity; apply N.eqb_neq; lia.
Qed.

(** The scanner on a text that starts with a number. *)
Lemma scan_once_number (fuel : nat) (s integer frac exp r : pystr) :
  match_number s = Some (integer, frac, exp, r) ->
  scan_once (S fuel) s =
  Some (match frac, exp with
        | [], [] => VInt (parse_int integer)
        | _, _ => VFloat (float_of_literal (integer ++ frac ++ exp))
        end, r).
Proof.
  intros Hm. destruct (match_number_head _ _ _ _ _ Hm) as (c & tl & -> & Hc).
  destruct (number_head_tests c tl Hc) as (T1 & T2 & T3 & T4 & T5 & T6).
  cbn [scan_once]. rewrite T1, T2, T3, T4, T5, T6, Hm.
  destruct frac, exp; reflexivity.
Qed.

Lemma scan_once_int (fuel : nat) (z : Z) (rest : pystr) :
  number_end rest ->
  scan_once (S fuel) (int_repr z ++ rest) = Some (VInt z, rest).
Proof.
  intros Hrest.
  rewrite (scan_once_number fuel _ (int_repr z) [] [] rest).
  - now rewrite parse_int_repr.
  - apply match_number_extend; [apply match_number_int_repr|assumption].
Qed.

(** The contract of the two float conversions: [float.__repr__] writes a
    finite float as a JSON number with a fraction or an exponent, and
    [float] reads that text back as the same float. *)
Hypothesis float_repr_literal : forall x, is_float_literal (float_repr x) = true.
Hypothesis float_of_repr : forall x, float_of_literal (float_repr x) = Finite x.

Lemma scan_once_float (fuel : nat) (x : F) (rest : pystr) :
  number_end rest ->
  scan_once (S fuel) (float_repr x ++ rest) = Some (VFloat (Finite x), rest).
Proof.
  intros Hrest. pose proof (float_repr_literal x) as Hlit.
  unfold is_float_literal in Hlit.
  destruct (match_number (float_repr x)) as [[[[integer frac] exp] r]|] eqn:Hm;
    [|discriminate].
  assert (r = [] /\ (frac <> [] \/ exp <> [])) as [-> Hfe].
  { destruct frac, exp, r; try discriminate; split; auto;
      solve [left; discriminate | right; discriminate]. }
  pose proof (match_number_app _ _ _ _ _ Hm) as Happ.
  rewrite !app_nil_r in Happ.
  rewrite (scan_once_number fuel _ integer frac exp rest)
    by (now apply match_number_extend).
  rewrite <- Happ, float_of_repr.
  destruct frac, exp; try reflexivity. destruct Hfe; congruence.
Qed.

Lemma float_repr_ascii (x : F) : ascii_text (float_repr x).
Proof.
  pose proof (float_repr_literal x) as Hlit. unfold is_float_literal in Hlit.
  destruct (match_number (float_repr x)) as [[[[integer frac] exp] r]|] eqn:Hm;
    [|discriminate].
  assert (r = []) as -> by (destruct frac, exp, r; try discriminate; reflexivity).
  pose proof (match_number_app _ _ _ _ _ Hm) as Happ.
  rewrite !app_nil_r in Happ. rewrite Happ.
  now apply match_number_ascii in Hm.
Qed.

Lemma skip_ws_indent (level : nat) (s : pystr) :
  skip_ws (newline_indent level ++ s) = skip_ws s.
Proof.
  unfold newline_indent. cbn [app skip_ws].
  change (is_ws NEWLINE) with true. cbv iota.
  induction (2 * level)%nat as [|n IH]; [reflexivity|].
  cbn [repeat app skip_ws]. change (is_ws SPACE) with true. exact IH.
Qed.

Lemma skip_ws_head (c : N) (s : pystr) :
  is_ws c = false -> skip_ws (c :: s) = c :: s.
Proof. intros H. cbn [skip_ws]. now rewrite H. Qed.

Lemma value_head_not_ws (c : N) : value_head c -> is_ws c = false.
Proof.
  unfold value_head, is_ws. rewrite is_digit_bounds. intros H.
  rewrite !orb_false_iff, !N.eqb_neq. lia.
Qed.

Lemma value_head_not_close (c : N) :
  value_head c -> (c =? RBRACKET) = false /\ (c =? RBRACE) = false.
Proof.
  unfold value_head. rewrite is_digit_bounds, !N.eqb_neq. lia.
Qed.

Lemma iterencode_list (first : value) (lst : list value) (level : nat) :
  iterencode (VList (first :: lst)) level =
  LBRACKET :: newline_indent (S level) ++ iterencode first (S level)
  ++ flat_map (fun v => COMMA :: newline_indent (S level)
                              ++ iterencode v (S level)) lst
  ++ newline_indent level ++ [RBRACKET].
Proof. reflexivity. Qed.

Lemma iterencode_dict (key : pystr) (first : value)
  (dct : list (pystr * value)) (level : nat) :
  iterencode (VDict ((key, first) :: dct)) level =
  LBRACE :: newline_indent (S level)
  ++ encode_basestring_ascii key ++ [COLON; SPACE]
  ++ iterencode first (S level)
  ++ flat_map (fun kv => COMMA :: newline_indent (S level)
                               ++ encode_basestring_ascii (fst kv)
                               ++ [COLON; SPACE]
                               ++ iterencode (snd kv) (S level)) dct
  ++ newline_indent level ++ [RBRACE].
Proof. reflexivity. Qed.

Lemma iterencode_head (v : value) (level : nat) :
  exists c tl, iterencode v level = c :: tl /\ value_head c.
Proof.
  unfold value_head.
  destruct v as [ |[|]|z|[x| | |]|s|[|first lst]|[|[key first] dct]];
    try (do 2 eexists; split; [reflexivity|]; tauto).
  - destruct z as [|p|p]; cbn [iterencode int_repr].
    + destruct (nat_repr_head (Z.to_N 0)) as (d & ds & -> & Hd).
      do 2 eexists; split; [reflexivity|]; tauto.
    + destruct (nat_repr_head (Z.to_N (Z.pos p))) as (d & ds & -> & Hd).
      do 2 eexists; split; [reflexivity|]; tauto.
    + do 2 eexists; split; [reflexivity|]; tauto.
  - cbn [iterencode floatstr].
    pose proof (float_repr_literal x) as Hlit. unfold is_float_literal in Hlit.
    destruct (match_number (float_repr x)) as [[[[integer frac] exp] r]|] eqn:Hm;
      [|discriminate].
    destruct (match_number_head _ _ _ _ _ Hm) as (c & tl & -> & Hc).
    exists c, tl. split; [reflexivity|]. tauto.
Qed.

Lemma skip_ws_iterencode (v : value) (level : nat) (rest : pystr) :
  skip_ws (iterencode v level ++ rest) = iterencode v level ++ rest.
Proof.
  destruct (iterencode_head v level) as (c & tl & -> & Hc).
  apply skip_ws_head. now apply value_head_not_ws.
Qed.

(** After a value the encoder writes a comma, or a newline before the
    closing bracket: neither goes on like a number. *)
Lemma number_end_comma (s : pystr) : number_end (COMMA :: s).
Proof. simpl. repeat split; discriminate. Qed.

Lemma number_end_indent (level : nat) (s : pystr) :
  number_end (newline_indent level ++ s).
Proof. simpl. repeat split; discriminate. Qed.

Ltac norm_app := repeat (progress cbn [app] || rewrite <- app_assoc).

Section Loops.

Variable scan : pystr -> option (value * pystr).
Variable level : nat.

Lemma JSONArray_loop_items (lst : list value) :
  forall first n rest,
    scans scan level (first :: lst) -> (List.length lst < n)%nat ->
    JSONArray_loop scan n
      (iterencode first (S level)
       ++ flat_map (fun v => COMMA :: newline_indent (S level)
                                   ++ iterencode v (S level)) lst
       ++ newline_indent level ++ RBRACKET :: rest)
    = Some (first :: lst, rest).
Proof.
  induction lst as [|v lst IH]; intros first n rest Hscan Hn;
    destruct n as [|n]; try (simpl in Hn; lia);
    inversion Hscan as [|? ? Hfirst Hrest]; subst; cbn [JSONArray_loop flat_map].
  - cbn [app]. rewrite Hfirst by apply number_end_indent.
    rewrite skip_ws_indent, skip_ws_head by reflexivity.
    change (RBRACKET =? RBRACKET) with true. reflexivity.
  - norm_app.
    rewrite Hfirst by apply number_end_comma.
    rewrite skip_ws_head by reflexivity.
    change (COMMA =? RBRACKET) with false. change (COMMA =? COMMA) with true.
    cbv iota. rewrite skip_ws_indent, skip_ws_iterencode.
    rewrite IH; [reflexivity|assumption|simpl in Hn; lia].
Qed.

Lemma flat_map_length_ge {A : Type} (f : A -> pystr) (l : list A) :
  (forall a, 1 <= List.length (f a))%nat ->
  (List.length l <= List.length (flat_map f l))%nat.
Proof.
  intros Hf. induction l as [|a l IH]; simpl; [lia|].
  rewrite length_app. specialize (Hf a). lia.
Qed.

Lemma JSONArray_items (first : value) (lst : list value) (rest : pystr) :
  scans scan level (first :: lst) ->
  JSONArray scan
    (newline_indent (S level) ++ iterencode first (S level)
     ++ flat_map (fun v => COMMA :: newline_indent (S level)
                                 ++ iterencode v (S level)) lst
     ++ newline_indent level ++ RBRACKET :: rest)
  = Some (VList (first :: lst), rest).
Proof.
  intros Hscan. unfold JSONArray.
  rewrite skip_ws_indent, skip_ws_iterencode.
  destruct (iterencode_head first (S level)) as (c & tl & E & Hc).
  match goal with
  | |- context [JSONArray_loop scan _ ?b] => set (body := b)
  end.
  assert (Hb : exists tl', body = c :: tl')
    by (unfold body; rewrite E; eexists; reflexivity).
  destruct Hb as [tl' Hb]. rewrite Hb at 1.
  rewrite (proj1 (value_head_not_close c Hc)). unfold body.
  rewrite JSONArray_loop_items; [reflexivity|assumption|].
  rewrite !length_app.
  pose proof (flat_map_length_ge
                (fun v => COMMA :: newline_indent (S level)
                                ++ iterencode v (S level)) lst) as Hlen.
  cbn [List.length]. specialize (Hlen (fun a => le_n_S _ _ (Nat.le_0_l _))).
  unfold newline_indent at 1. cbn [List.length]. lia.
Qed.

Lemma JSONObject_loop_items (dct : list (pystr * value)) :
  forall key first n rest,
    scans scan level (first :: map snd dct) ->
    Forall (fun kv => str_ok (fst kv) = true) ((key, first) :: dct) ->
    (List.length dct < n)%nat ->
    JSONObject_loop scan n
      (flat_map escape_char key ++ QUOTE :: COLON :: SPACE
       :: iterencode first (S level)
       ++ flat_map (member level) dct
       ++ newline_indent level ++ RBRACE :: rest)
    = Some ((key, first) :: dct, rest).
Proof.
  induction dct as [|[k v] dct IH]; intros key first n rest Hscan Hkeys Hn;
    destruct n as [|n]; try (simpl in Hn; lia);
    inversion Hscan as [|? ? Hfirst Hrest]; subst;
    inversion Hkeys as [|? ? Hkey Hkeys']; subst;
    cbn [JSONObject_loop flat_map]; cbn [fst] in Hkey;
    rewrite scanstring_encode by assumption;
    rewrite skip_ws_head by reflexivity;
    change (COLON =? COLON) with true; cbv iota;
    change (skip_ws (SPACE :: ?s)) with (skip_ws s);
    rewrite skip_ws_iterencode.
  - cbn [app]. rewrite Hfirst by apply number_end_indent.
    rewrite skip_ws_indent, skip_ws_head by reflexivity.
    change (RBRACE =? RBRACE) with true. reflexivity.
  - unfold member at 1. cbn [fst snd]. norm_app.
    rewrite Hfirst by apply number_end_comma.
    rewrite skip_ws_head by reflexivity.
    change (COMMA =? RBRACE) with false. change (COMMA =? COMMA) with true.
    cbv iota. rewrite skip_ws_indent.
    unfold encode_basestring_ascii. norm_app.
    rewrite skip_ws_head by reflexivity.
    change (QUOTE =? QUOTE) with true. cbv iota.
    rewrite IH; [reflexivity|assumption|assumption|simpl in Hn; lia].
Qed.

Lemma JSONObject_items (key : pystr) (first : value)
  (dct : list (pystr * value)) (rest : pystr) :
  scans scan level (first :: map snd dct) ->
  Forall (fun kv => str_ok (fst kv) = true) ((key, first) :: dct) ->
  JSONObject scan
    (newline_indent (S level)
     ++ encode_basestring_ascii key ++ [COLON; SPACE]
     ++ iterencode first (S level)
     ++ flat_map (member level) dct
     ++ newline_indent level ++ RBRACE :: rest)
  = Some (VDict (dict_of_pairs ((key, first) :: dct)), rest).
Proof.
  intros Hscan Hkeys. unfold JSONObject.
  rewrite skip_ws_indent. unfold encode_basestring_ascii. norm_app.
  rewrite skip_ws_head by reflexivity.
  change (QUOTE =? RBRACE) with false. change (QUOTE =? QUOTE) with true.
  cbv iota.
  rewrite JSONObject_loop_items; [reflexivity|assumption|assumption|].
  rewrite !length_app.
  pose proof (flat_map_length_ge (member level) dct) as Hlen.
  specialize (Hlen (fun a => le_n_S _ _ (Nat.le_0_l _))).
  repeat (progress cbn [List.length] || rewrite length_app). lia.
Qed.

End Loops.

(** ** Dicts *)

Lemma dict_get_app (d1 d2 : list (pystr * value)) (k : pystr) :
  dict_get (d1 ++ d2) k =
  match dict_get d1 k with
  | Some v => Some v
  | None => dict_get d2 k
  end.
Proof.
  induction d1 as [|[k' v'] d1 IH]; simpl; [reflexivity|].
  now destruct (pystr_eqb k' k).
Qed.

Lemma dict_set_fresh (d : list (pystr * value)) (k : pystr) (v : value) :
  dict_get d k = None -> dict_set d k v = d ++ [(k, v)].
Proof.
  induction d as [|[k' v'] d IH]; simpl; [reflexivity|].
  destruct (pystr_eqb k' k); [discriminate|]. intros H. now rewrite IH.
Qed.

Lemma dict_of_pairs_fresh (d : list (pystr * value)) :
  forall acc,
    distinct_keys d = true ->
    (forall kv, In kv d -> dict_get acc (fst kv) = None) ->
    fold_left (fun a kv => dict_set a (fst kv) (snd kv)) d acc = acc ++ d.
Proof.
  induction d as [|[k v] d IH]; intros acc Hd Hacc; cbn [fold_left].
  - now rewrite app_nil_r.
  - cbn [distinct_keys] in Hd.
    destruct (dict_get d k) eqn:Hk; [discriminate|].
    cbn [fst snd]. rewrite dict_set_fresh by (apply (Hacc (k, v)); now left).
    rewrite IH; [now rewrite <- app_assoc|assumption|].
    intros [k' v'] Hin. rewrite dict_get_app.
    rewrite (Hacc (k', v')) by now right.
    cbn [fst dict_get]. destruct (pystr_eqb k k') eqn:E; [|reflexivity].
    apply pystr_eqb_eq in E. subst k'.
    exfalso. clear - Hk Hin.
    induction d as [|[k0 v0] d IHd]; [contradiction|].
    simpl in Hk. destruct (pystr_eqb k0 k) eqn:E0; [discriminate|].
    destruct Hin as [Hin|Hin]; [|now apply IHd].
    inversion Hin; subst. now rewrite pystr_eqb_refl in E0.
Qed.

(** [dict(pairs)] of pairs with distinct keys is those pairs. *)
Lemma dict_of_pairs_id (d : list (pystr * value)) :
  distinct_keys d = true -> dict_of_pairs d = d.
Proof.
  intros Hd. unfold dict_of_pairs. now rewrite dict_of_pairs_fresh.
Qed.

(** ** The round trip *)

Lemma max_depth_bound {A : Type} (dep : A -> nat) (l : list A) (n : nat) :
  (fold_right (fun x m => Nat.max (dep x) m) O l <= n)%nat ->
  Forall (fun x => (dep x <= n)%nat) l.
Proof.
  induction l as [|x l IH]; simpl; intros H; constructor; [lia|].
  apply IH. lia.
Qed.

Theorem scan_once_iterencode (v : value) :
  value_ok v = true ->
  forall level fuel rest,
    (depth v <= fuel)%nat -> number_end rest ->
    scan_once fuel (iterencode v level ++ rest) = Some (v, rest).
Proof.
  induction v as [ |b|z|f|s|l IH|d IH] using value_ind;
    intros Hok level fuel rest Hfuel Hrest;
    (destruct fuel as [|fuel]; [simpl in Hfuel; lia|]).
  - reflexivity.
  - destruct b; reflexivity.
  - now apply scan_once_int.
  - destruct f as [x| | |]; try reflexivity. now apply scan_once_float.
  - cbn [iterencode]. unfold encode_basestring_ascii. norm_app.
    cbn [scan_once]. change (QUOTE =? QUOTE) with true. cbv iota.
    now rewrite scanstring_encode.
  - destruct l as [|first lst]; [reflexivity|].
    rewrite iterencode_list. norm_app. cbn [scan_once].
    change (LBRACKET =? QUOTE) with false.
    change (LBRACKET =? LBRACE) with false.
    change (LBRACKET =? LBRACKET) with true. cbv iota.
    apply JSONArray_items.
    cbn [depth] in Hfuel. apply le_S_n in Hfuel.
    apply max_depth_bound in Hfuel.
    cbn [value_ok] in Hok. rewrite forallb_forall in Hok.
    unfold scans. rewrite Forall_forall in *.
    intros x Hx rest' Hrest'. apply IH; auto.
  - destruct d as [|[key first] dct]; [reflexivity|].
    rewrite iterencode_dict. norm_app. cbn [scan_once].
    change (LBRACE =? QUOTE) with false.
    change (LBRACE =? LBRACE) with true. cbv iota.
    cbn [value_ok] in Hok. apply andb_true_iff in Hok as [Hkeys Hok].
    rewrite forallb_forall in Hok.
    rewrite <- (dict_of_pairs_id ((key, first) :: dct)) by assumption.
    cbn [depth] in Hfuel. apply le_S_n in Hfuel.
    apply max_depth_bound in Hfuel.
    pose proof (JSONObject_items (scan_once fuel) level key first dct rest) as H.
    unfold member in H. norm_app. cbn [app] in H.
    repeat rewrite <- app_assoc in H. cbn [app] in H.
    apply H.
    + unfold scans. rewrite Forall_forall in *.
      intros x Hx rest' Hrest'.
      change (first :: map snd dct) with (map snd ((key, first) :: dct)) in Hx.
      apply in_map_iff in Hx as (kv & <- & Hkv).
      apply IH; auto.
      specialize (Hok kv Hkv). apply andb_true_iff in Hok. tauto.
    + rewrite Forall_forall. intros kv Hkv.
      specialize (Hok kv Hkv). apply andb_true_iff in Hok. tauto.
Qed.

Lemma max_depth_length {A : Type} (dep : A -> nat) (f : A -> pystr) (l : list A) :
  Forall (fun x => (dep x <= List.length (f x))%nat) l ->
  (fold_right (fun x m => Nat.max (dep x) m) O l
   <= List.length (flat_map f l))%nat.
Proof.
  induction 1 as [|x l Hx _ IH]; simpl; [lia|].
  rewrite length_app. lia.
Qed.

(** A value is never nested deeper than its text is long. *)
Lemma depth_le_length (v : value) :
  forall level, (depth v <= List.length (iterencode v level))%nat.
Proof.
  assert (nonempty : forall x level, (1 <= List.length (iterencode x level))%nat).
  { intros x level. destruct (iterencode_head x level) as (c & tl & -> & _).
    simpl. lia. }
  induction v as [ |b|z|f|s|l IH|d IH] using value_ind; intros level;
    try apply nonempty.
  - destruct l as [|first lst]; [simpl; lia|].
    rewrite iterencode_list. cbn [depth fold_right List.length].
    repeat (rewrite length_app || cbn [List.length]).
    inversion IH as [|? ? Hfirst Hlst]; subst.
    specialize (Hfirst (S level)).
    pose proof (max_depth_length depth
                  (fun v => COMMA :: newline_indent (S level)
                                  ++ iterencode v (S level)) lst) as Hmax.
    assert (Forall (fun x => (depth x <= List.length
              (COMMA :: newline_indent (S level) ++ iterencode x (S level)))%nat) lst)
      as Hall.
    { eapply Forall_impl; [|exact Hlst]. intros x Hx. cbn beta in Hx.
      specialize (Hx (S level)). cbn [List.length]. rewrite length_app. lia. }
    specialize (Hmax Hall). lia.
  - destruct d as [|[key first] dct]; [simpl; lia|].
    rewrite iterencode_dict. cbn [depth fold_right List.length snd].
    repeat (rewrite length_app || cbn [List.length]).
    inversion IH as [|? ? Hfirst Hlst]; subst. cbn [snd] in Hfirst.
    specialize (Hfirst (S level)).
    pose proof (max_depth_length (fun kv => depth (snd kv))
                  (fun kv => COMMA :: newline_indent (S level)
                                   ++ encode_basestring_ascii (fst kv)
                                   ++ [COLON; SPACE]
                                   ++ iterencode (snd kv) (S level)) dct) as Hmax.
    assert (Forall (fun x : pystr * value => (depth (snd x) <= List.length
              (COMMA :: newline_indent (S level)
                 ++ encode_basestring_ascii (fst x) ++ [COLON; SPACE]
                 ++ iterencode (snd x) (S level)))%nat) dct) as Hall.
    { eapply Forall_impl; [|exact Hlst]. intros x Hx. cbn beta in Hx.
      specialize (Hx (S level)). cbn [List.length]. rewrite !length_app. lia. }
    specialize (Hmax Hall). lia.
Qed.

(** [json.loads(json.dumps(v, indent=2)) == v] *)
Theorem loads_dumps (v : value) : value_ok v = true -> loads (dumps v) = Some v.
Proof.
  intros Hok. unfold loads, dumps.
  destruct (iterencode_head v 0) as (c & tl & E & Hc).
  assert (strip_prefix [0xfeff] (iterencode v 0) = None) as ->.
  { rewrite E. cbn [strip_prefix].
    rewrite (proj2 (N.eqb_neq 0xfeff c)); [reflexivity|].
    unfold value_head in Hc. rewrite is_digit_bounds in Hc. lia. }
  rewrite <- (app_nil_r (iterencode v 0)) at 2.
  rewrite skip_ws_iterencode.
  rewrite scan_once_iterencode; [reflexivity|assumption| |exact I].
  pose proof (depth_le_length v 0). lia.
Qed.

(** ** What the scanner builds from scalar text *)

Lemma push_some (c : N) (r : option (pystr * pystr)) (chars rest : pystr) :
  push c r = Some (chars, rest) ->
  exists chars', chars = c :: chars' /\ r = Some (chars', rest).
Proof.
  destruct r as [[chars' rest']|]; simpl; [|discriminate].
  intros H; inversion H; subst. now exists chars'.
Qed.

Lemma scanstring_inv (s chars rest : pystr) :
  scanstring s = Some (chars, rest) ->
  (s = QUOTE :: rest /\ chars = [])
  \/ exists c s' chars',
      scan_step s c s' /\ chars = c :: chars'
      /\ scanstring s' = Some (chars', rest).
Proof.
  intros Hs. destruct s as [|c s]; [discriminate|].
  rewrite scanstring_cons in Hs.
  destruct (c =? QUOTE) eqn:Eq.
  { apply N.eqb_eq in Eq. inversion Hs; subst. now left. }
  apply N.eqb_neq in Eq. right.
  destruct (c =? BACKSLASH) eqn:Eb.
  - apply N.eqb_eq in Eb. subst c.
    destruct s as [|esc rest1]; [discriminate|].
    destruct (esc =? 117) eqn:Eu.
    + apply N.eqb_eq in Eu. subst esc.
      destruct rest1 as [|h1 [|h2 [|h3 [|h4 rest2]]]]; try discriminate.
      destruct (hex4 h1 h2 h3 h4) as [uni|] eqn:Hhex; [|discriminate].
      assert (plain_u : no_low_escape_ahead rest2 ->
                push uni (scanstring rest2) = Some (chars, rest) ->
                exists c s' chars',
                  scan_step (BACKSLASH :: 117 :: h1 :: h2 :: h3 :: h4 :: rest2) c s'
                  /\ chars = c :: chars' /\ scanstring s' = Some (chars', rest)).
      { intros Hahead Hp. apply push_some in Hp as (chars' & -> & Hp').
        exists uni, rest2, chars'. split; [|split]; auto.
        now apply step_u. }
      destruct (is_high_surrogate uni) eqn:Hhigh.
      * destruct rest2 as [|b [|u rest3]];
          [apply plain_u; [exact I|exact Hs] ..|].
        destruct ((b =? BACKSLASH) && (u =? 117)) eqn:Ebu.
        -- apply andb_true_iff in Ebu as [Eb' Eu'].
           apply N.eqb_eq in Eb', Eu'. subst b u.
           destruct rest3 as [|l1 [|l2 [|l3 [|l4 rest4]]]]; try discriminate.
           destruct (hex4 l1 l2 l3 l4) as [uni2|] eqn:Hhex2; [|discriminate].
           destruct (is_low_surrogate uni2) eqn:Hlow.
           ++ apply push_some in Hs as (chars' & -> & Hp').
              exists (join_surrogates uni uni2), rest4, chars'.
              split; [|split]; auto. now apply step_pair.
           ++ apply plain_u; [|exact Hs].
              simpl. intros _ _ x Hx. congruence.
        -- apply plain_u; [|exact Hs].
           destruct rest3 as [|l1 [|l2 [|l3 [|l4 rest4]]]]; try exact I.
           simpl. intros -> ->. vm_compute in Ebu. discriminate Ebu.
      * apply push_some in Hs as (chars' & -> & Hp').
        exists uni, rest2, chars'. split; [|split]; auto.
        apply step_u; [assumption|]. intros Hc. congruence.
    + destruct (backslash esc) as [char|] eqn:Hesc; [|discriminate].
      apply push_some in Hs as (chars' & -> & Hp').
      exists char, rest1, chars'. split; [|split]; auto. now apply step_short.
  - apply N.eqb_neq in Eb.
    destruct (c <? 32) eqn:Ec; [discriminate|]. apply N.ltb_ge in Ec.
    apply push_some in Hs as (chars' & -> & Hp').
    exists c, s, chars'. split; [|split]; auto. now apply step_plain.
Qed.

Lemma scan_step_length (s : pystr) (c : N) (s' : pystr) :
  scan_step s c s' -> (List.length s' < List.length s)%nat.
Proof. destruct 1; simpl; lia. Qed.

Lemma hex_value_bound (c d : N) : hex_value c = Some d -> d < 16.
Proof.
  unfold hex_value.
  destruct ((48 <=? c) && (c <=? 57)) eqn:E1.
  { apply andb_true_iff in E1 as [A B]. apply N.leb_le in A, B.
    intros H; inversion H; lia. }
  destruct ((97 <=? c) && (c <=? 102)) eqn:E2.
  { apply andb_true_iff in E2 as [A B]. apply N.leb_le in A, B.
    intros H; inversion H; lia. }
  destruct ((65 <=? c) && (c <=? 70)) eqn:E3; [|discriminate].
  apply andb_true_iff in E3 as [A B]. apply N.leb_le in A, B.
  intros H; inversion H; lia.
Qed.

Lemma hex4_bound (a b c d n : N) : hex4 a b c d = Some n -> n < 0x10000.
Proof.
  unfold hex4.
  destruct (hex_value a) as [x|] eqn:Ea; [|discriminate].
  destruct (hex_value b) as [y|] eqn:Eb; [|discriminate].
  destruct (hex_value c) as [z|] eqn:Ec; [|discriminate].
  destruct (hex_value d) as [w|] eqn:Ed; [|discriminate].
  apply hex_value_bound in Ea. apply hex_value_bound in Eb.
  apply hex_value_bound in Ec. apply hex_value_bound in Ed.
  intros Hn.
  replace n with (4096 * x + 256 * y + 16 * z + w) by congruence. lia.
Qed.

Lemma join_surrogates_bounds (s1 s2 : N) :
  is_high_surrogate s1 = true -> is_low_surrogate s2 = true ->
  0x10000 <= join_surrogates s1 s2 < 0x110000.
Proof.
  unfold is_high_surrogate, is_low_surrogate, join_surrogates.
  rewrite !andb_true_iff, !N.leb_le. intros [A B] [C D].
  rewrite lor_shiftl_add by (change (2 ^ 10) with 1024; lia).
  change (2 ^ 10) with 1024. lia.
Qed.

Lemma is_scalar_spec (c : N) :
  is_scalar c = true <-> c < 0x110000 /\ ~ (0xd800 <= c <= 0xdfff).
Proof.
  unfold is_scalar, is_surrogate.
  rewrite andb_true_iff, negb_true_iff, andb_false_iff, N.ltb_lt, !N.leb_gt.
  lia.
Qed.

Lemma is_high_spec (c : N) : is_high_surrogate c = true <-> 0xd800 <= c <= 0xdbff.
Proof. unfold is_high_surrogate. rewrite andb_true_iff, !N.leb_le. tauto. Qed.

Lemma is_low_spec (c : N) : is_low_surrogate c = true <-> 0xdc00 <= c <= 0xdfff.
Proof. unfold is_low_surrogate. rewrite andb_true_iff, !N.leb_le. tauto. Qed.

Lemma scalar_text_cons (c : N) (s : pystr) :
  scalar_text (c :: s) = true <-> is_scalar c = true /\ scalar_text s = true.
Proof. unfold scalar_text. cbn [forallb]. apply andb_true_iff. Qed.

Lemma scalar_text_app (a b : pystr) :
  scalar_text (a ++ b) = true <-> scalar_text a = true /\ scalar_text b = true.
Proof. unfold scalar_text. rewrite forallb_app. apply andb_true_iff. Qed.

(** What a step yields from scalar text: a valid code point, scalar text
    left, and after a high surrogate no escaped low surrogate. *)
Lemma scan_step_scalar (s : pystr) (c : N) (s' : pystr) :
  scan_step s c s' -> scalar_text s = true ->
  scalar_text s' = true /\ c < 0x110000
  /\ (is_high_surrogate c = true -> no_low_escape_ahead s')
  /\ (is_low_surrogate c = true -> ~ no_low_escape_ahead s).
Proof.
  intros Hstep Hs. destruct Hstep;
    repeat (apply scalar_text_cons in Hs as [? Hs]).
  - match goal with H : is_scalar c = true |- _ => apply is_scalar_spec in H end.
    split; [assumption|]. split; [lia|]. split.
    + rewrite is_high_spec. lia.
    + rewrite is_low_spec. lia.
  - match goal with H : backslash _ = _ |- _ => apply backslash_small in H end.
    split; [assumption|]. split; [lia|]. split.
    + rewrite is_high_spec. lia.
    + rewrite is_low_spec. lia.
  - split; [assumption|]. split; [|split].
    + match goal with H : hex4 _ _ _ _ = _ |- _ => apply hex4_bound in H end. lia.
    + assumption.
    + intros Hlow Hahead. simpl in Hahead.
      rewrite (Hahead eq_refl eq_refl c) in Hlow by assumption. discriminate.
  - pose proof (join_surrogates_bounds s1 s2
                  ltac:(assumption) ltac:(assumption)) as Hj.
    split; [assumption|]. split; [lia|]. split.
    + rewrite is_high_spec. lia.
    + rewrite is_low_spec. lia.
Qed.

Lemma scanstring_ok_aux (n : nat) :
  forall s chars rest,
    (List.length s <= n)%nat -> scalar_text s = true ->
    scanstring s = Some (chars, rest) ->
    str_ok chars = true /\ scalar_text rest = true
    /\ (forall c chars', chars = c :: chars' -> is_low_surrogate c = true ->
        ~ no_low_escape_ahead s).
Proof.
  induction n as [|n IH]; intros s chars rest Hlen Hs Hscan.
  - destruct s; [discriminate|simpl in Hlen; lia].
  - apply scanstring_inv in Hscan
      as [[-> ->]|(c & s' & chars' & Hstep & -> & Hscan)].
    + apply scalar_text_cons in Hs as [_ Hs].
      split; [reflexivity|]. split; [assumption|]. discriminate.
    + pose proof (scan_step_length _ _ _ Hstep) as Hlt.
      destruct (scan_step_scalar _ _ _ Hstep Hs) as (Hs' & Hc & Hhigh & Hlow).
      destruct (IH s' chars' rest) as (Hok & Hrest & Hhead);
        [lia|assumption|assumption|].
      split; [|split; [assumption|]].
      * cbn [str_ok]. rewrite Hok, (proj2 (N.ltb_lt _ _) Hc).
        rewrite andb_true_r. cbn [andb]. apply negb_true_iff.
        destruct (is_high_surrogate c) eqn:Ec; [|reflexivity].
        destruct chars' as [|c' chars'']; [reflexivity|]. cbn [andb].
        destruct (is_low_surrogate c') eqn:Ec'; [|reflexivity].
        exfalso. apply (Hhead c' chars'' eq_refl Ec'). now apply Hhigh.
      * intros c0 chars0 E Hc0. inversion E; subst. now apply Hlow.
Qed.

(** From scalar text, [scanstring] builds a string that the encoder and
    the scanner take back and forth. *)
Lemma scanstring_ok (s chars rest : pystr) :
  scalar_text s = true -> scanstring s = Some (chars, rest) ->
  str_ok chars = true /\ scalar_text rest = true.
Proof.
  intros Hs Hscan.
  destruct (scanstring_ok_aux (List.length s) s chars rest) as (H1 & H2 & _); auto.
Qed.

Lemma scalar_text_skip_ws (s : pystr) :
  scalar_text s = true -> scalar_text (skip_ws s) = true.
Proof.
  induction s as [|c s IH]; simpl; [trivial|]. intros H.
  destruct (is_ws c); [|exact H].
  apply IH. now apply (scalar_text_cons c s) in H.
Qed.

Lemma strip_prefix_scalar (p s r : pystr) :
  strip_prefix p s = Some r -> scalar_text s = true -> scalar_text r = true.
Proof.
  revert s. induction p as [|a p IH]; intros s; simpl.
  - intros H; now inversion H.
  - destruct s as [|b s]; [discriminate|].
    destruct (a =? b); [|discriminate].
    intros H Hs. apply (IH s H). now apply (scalar_text_cons b s) in Hs.
Qed.

Lemma match_number_scalar (s integer frac exp r : pystr) :
  match_number s = Some (integer, frac, exp, r) ->
  scalar_text s = true -> scalar_text r = true.
Proof.
  intros H Hs. apply match_number_app in H. subst s.
  repeat (apply scalar_text_app in Hs as [_ Hs]). exact Hs.
Qed.

Lemma dict_get_set (d : list (pystr * value)) (k k' : pystr) (v : value) :
  dict_get (dict_set d k v) k' =
  if pystr_eqb k k' then Some v else dict_get d k'.
Proof.
  induction d as [|[k0 v0] d IH]; simpl.
  - reflexivity.
  - destruct (pystr_eqb k0 k) eqn:E0; simpl.
    + apply pystr_eqb_eq in E0. subst k0.
      now destruct (pystr_eqb k k').
    + rewrite IH. destruct (pystr_eqb k0 k') eqn:E1; [|reflexivity].
      apply pystr_eqb_eq in E1. subst k0.
      rewrite pystr_eqb_sym, E0. reflexivity.
Qed.

Lemma distinct_keys_set (d : list (pystr * value)) (k : pystr) (v : value) :
  distinct_keys d = true -> distinct_keys (dict_set d k v) = true.
Proof.
  induction d as [|[k0 v0] d IH]; simpl; [trivial|].
  destruct (dict_get d k0) eqn:E0; [discriminate|]. intros Hd.
  destruct (pystr_eqb k0 k) eqn:E; simpl.
  - now rewrite E0.
  - rewrite dict_get_set. rewrite pystr_eqb_sym, E, E0. now apply IH.
Qed.

Lemma entries_ok_set (d : list (pystr * value)) (k : pystr) (v : value) :
  forallb entry_ok d = true -> entry_ok (k, v) = true ->
  forallb entry_ok (dict_set d k v) = true.
Proof.
  unfold entry_ok. cbn [fst snd]. intros Hd Hkv.
  apply andb_true_iff in Hkv as [Hk Hv].
  induction d as [|[k0 v0] d IH]; cbn [dict_set forallb fst snd].
  - now rewrite Hk, Hv.
  - cbn [forallb fst snd] in Hd. apply andb_true_iff in Hd as [H0 Hd].
    apply andb_true_iff in H0 as [Hk0 Hv0].
    destruct (pystr_eqb k0 k); cbn [forallb fst snd].
    + now rewrite Hk0, Hv, Hd.
    + now rewrite Hk0, Hv0, IH.
Qed.

Lemma dict_of_pairs_ok (pairs : list (pystr * value)) :
  forallb entry_ok pairs = true ->
  distinct_keys (dict_of_pairs pairs) = true
  /\ forallb entry_ok (dict_of_pairs pairs) = true.
Proof.
  unfold dict_of_pairs.
  assert (gen : forall acc,
            distinct_keys acc = true -> forallb entry_ok acc = true ->
            forallb entry_ok pairs = true ->
            distinct_keys (fold_left (fun d kv => dict_set d (fst kv) (snd kv))
                                     pairs acc) = true
            /\ forallb entry_ok (fold_left (fun d kv => dict_set d (fst kv) (snd kv))
                                           pairs acc) = true).
  { induction pairs as [|[k v] pairs IH]; intros acc Hd Hacc Hp;
      cbn [fold_left]; [now split|].
    cbn [forallb] in Hp. apply andb_true_iff in Hp as [Hkv Hp].
    apply IH; [now apply distinct_keys_set|now apply entries_ok_set|assumption]. }
  now apply gen.
Qed.

Section ScanInvariant.

Variable scan : pystr -> option (value * pystr).
Hypothesis scan_ok : forall s v rest,
    scalar_text s = true -> scan s = Some (v, rest) ->
    value_ok v = true /\ scalar_text rest = true.

Lemma JSONArray_loop_ok (n : nat) :
  forall s values rest,
    scalar_text s = true -> JSONArray_loop scan n s = Some (values, rest) ->
    forallb value_ok values = true /\ scalar_text rest = true.
Proof.
  induction n as [|n IH]; intros s values rest Hs H; cbn [JSONArray_loop] in H;
    [discriminate|].
  destruct (scan s) as [[v s1]|] eqn:E; [|discriminate].
  destruct (scan_ok _ _ _ Hs E) as [Hv Hs1].
  apply scalar_text_skip_ws in Hs1.
  destruct (skip_ws s1) as [|nextchar s2]; [discriminate|].
  apply scalar_text_cons in Hs1 as [_ Hs2].
  destruct (nextchar =? RBRACKET).
  { inversion H; subst. cbn [forallb]. now rewrite Hv. }
  destruct (nextchar =? COMMA); [|discriminate].
  destruct (JSONArray_loop scan n (skip_ws s2)) as [[values' r]|] eqn:El;
    [|discriminate].
  inversion H; subst.
  destruct (IH _ _ _ (scalar_text_skip_ws _ Hs2) El) as [Hvs Hr].
  cbn [forallb]. now rewrite Hv, Hvs.
Qed.

Lemma JSONArray_ok (s : pystr) (v : value) (rest : pystr) :
  scalar_text s = true -> JSONArray scan s = Some (v, rest) ->
  value_ok v = true /\ scalar_text rest = true.
Proof.
  intros Hs H. unfold JSONArray in H.
  pose proof (scalar_text_skip_ws _ Hs) as Hs1.
  destruct (skip_ws s) as [|nextchar s1] eqn:Ews; [discriminate|].
  destruct (nextchar =? RBRACKET).
  { inversion H; subst. split; [reflexivity|].
    now apply scalar_text_cons in Hs1. }
  destruct (JSONArray_loop scan (List.length s) (nextchar :: s1))
    as [[values r]|] eqn:El; [|discriminate].
  inversion H; subst. now apply JSONArray_loop_ok in El.
Qed.

Lemma JSONObject_loop_ok (n : nat) :
  forall s pairs rest,
    scalar_text s = true -> JSONObject_loop scan n s = Some (pairs, rest) ->
    forallb entry_ok pairs = true /\ scalar_text rest = true.
Proof.
  induction n as [|n IH]; intros s pairs rest Hs H; cbn [JSONObject_loop] in H;
    [discriminate|].
  destruct (scanstring s) as [[key s1]|] eqn:Ekey; [|discriminate].
  destruct (scanstring_ok _ _ _ Hs Ekey) as [Hkey Hs1].
  apply scalar_text_skip_ws in Hs1.
  destruct (skip_ws s1) as [|colon s2]; [discriminate|].
  apply scalar_text_cons in Hs1 as [_ Hs2].
  destruct (colon =? COLON); [|discriminate].
  destruct (scan (skip_ws s2)) as [[v s3]|] eqn:E; [|discriminate].
  destruct (scan_ok _ _ _ (scalar_text_skip_ws _ Hs2) E) as [Hv Hs3].
  apply scalar_text_skip_ws in Hs3.
  destruct (skip_ws s3) as [|nextchar s4]; [discriminate|].
  apply scalar_text_cons in Hs3 as [_ Hs4].
  assert (entry_ok (key, v) = true) as Hkv
    by (unfold entry_ok; cbn [fst snd]; now rewrite Hkey, Hv).
  destruct (nextchar =? RBRACE).
  { inversion H; subst. cbn [forallb]. now rewrite Hkv. }
  destruct (nextchar =? COMMA); [|discriminate].
  apply scalar_text_skip_ws in Hs4.
  destruct (skip_ws s4) as [|q s5]; [discriminate|].
  apply scalar_text_cons in Hs4 as [_ Hs5].
  destruct (q =? QUOTE); [|discriminate].
  destruct (JSONObject_loop scan n s5) as [[pairs' r]|] eqn:El; [|discriminate].
  inversion H; subst.
  destruct (IH _ _ _ Hs5 El) as [Hps Hr].
  cbn [forallb]. now rewrite Hkv, Hps.
Qed.

Lemma JSONObject_ok (s : pystr) (v : value) (rest : pystr) :
  scalar_text s = true -> JSONObject scan s = Some (v, rest) ->
  value_ok v = true /\ scalar_text rest = true.
Proof.
  intros Hs H. unfold JSONObject in H.
  pose proof (scalar_text_skip_ws _ Hs) as Hs1.
  destruct (skip_ws s) as [|nextchar s1] eqn:Ews; [discriminate|].
  apply scalar_text_cons in Hs1 as [_ Hs1].
  destruct (nextchar =? RBRACE).
  { inversion H; subst. now split. }
  destruct (nextchar =? QUOTE); [|discriminate].
  destruct (JSONObject_loop scan (List.length s) s1)
    as [[pairs r]|] eqn:El; [|discriminate].
  inversion H; subst. apply JSONObject_loop_ok in El; [|assumption].
  destruct El as [Hps Hr]. split; [|assumption].
  cbn [value_ok]. apply dict_of_pairs_ok in Hps as [H1 H2].
  apply andb_true_iff. split; [exact H1|exact H2].
Qed.

End ScanInvariant.

(** From scalar text the scanner builds well-formed data. *)
Lemma scan_once_ok (fuel : nat) :
  forall s v rest,
    scalar_text s = true -> scan_once fuel s = Some (v, rest) ->
    value_ok v = true /\ scalar_text rest = true.
Proof.
  induction fuel as [|fuel IH]; intros s v rest Hs H; [discriminate|].
  cbn [scan_once] in H. destruct s as [|nextchar s']; [discriminate|].
  pose proof Hs as Hs'. apply scalar_text_cons in Hs' as [_ Hs'].
  destruct (nextchar =? QUOTE).
  { destruct (scanstring s') as [[chars r]|] eqn:E; [|discriminate].
    inversion H; subst. now apply scanstring_ok in E. }
  destruct (nextchar =? LBRACE).
  { now apply (JSONObject_ok (scan_once fuel) IH) in H. }
  destruct (nextchar =? LBRACKET).
  { now apply (JSONArray_ok (scan_once fuel) IH) in H. }
  destruct (strip_prefix (lit "null") (nextchar :: s')) as [r|] eqn:E1.
  { inversion H; subst. split; [reflexivity|]. eapply strip_prefix_scalar; eauto. }
  destruct (strip_prefix (lit "true") (nextchar :: s')) as [r|] eqn:E2.
  { inversion H; subst. split; [reflexivity|]. eapply strip_prefix_scalar; eauto. }
  destruct (strip_prefix (lit "false") (nextchar :: s')) as [r|] eqn:E3.
  { inversion H; subst. split; [reflexivity|]. eapply strip_prefix_scalar; eauto. }
  destruct (match_number (nextchar :: s')) as [[[[integer frac] exp] r]|] eqn:Em.
  { assert (scalar_text r = true) by (eapply match_number_scalar; eauto).
    destruct frac, exp; inversion H; subst; now split. }
  destruct (strip_prefix (lit "NaN") (nextchar :: s')) as [r|] eqn:E4.
  { inversion H; subst. split; [reflexivity|]. eapply strip_prefix_scalar; eauto. }
  destruct (strip_prefix (lit "Infinity") (nextchar :: s')) as [r|] eqn:E5.
  { inversion H; subst. split; [reflexivity|]. eapply strip_prefix_scalar; eauto. }
  destruct (strip_prefix (lit "-Infinity") (nextchar :: s')) as [r|] eqn:E6;
    [|discriminate].
  inversion H; subst. split; [reflexivity|]. eapply strip_prefix_scalar; eauto.
Qed.

(** [json.loads] of scalar text is well-formed data. *)
Theorem loads_ok (s : pystr) (v : value) :
  scalar_text s = true -> loads s = Some v -> value_ok v = true.
Proof.
  intros Hs H. unfold loads in H.
  destruct (strip_prefix [0xfeff] s); [discriminate|].
  destruct (scan_once (S (List.length s)) (skip_ws s)) as [[obj rest]|] eqn:E;
    [|discriminate].
  apply scan_once_ok in E; [|now apply scalar_text_skip_ws].
  destruct (skip_ws rest); [|discriminate]. inversion H; subst. tauto.
Qed.

(** ** The bounds of the scanner are never reached *)

Lemma skip_ws_length (s : pystr) : (List.length (skip_ws s) <= List.length s)%nat.
Proof.
  induction s as [|c s IH]; simpl; [lia|]. destruct (is_ws c); simpl; lia.
Qed.

Lemma scanstring_shorter (n : nat) :
  forall s chars rest,
    (List.length s <= n)%nat -> scanstring s = Some (chars, rest) ->
    (List.length rest < List.length s)%nat.
Proof.
  induction n as [|n IH]; intros s chars rest Hlen Hscan.
  - destruct s; [discriminate|simpl in Hlen; lia].
  - apply scanstring_inv in Hscan
      as [[-> ->]|(c & s' & chars' & Hstep & -> & Hscan)].
    + simpl. lia.
    + apply scan_step_length in Hstep.
      pose proof (IH s' chars' rest ltac:(lia) Hscan). lia.
Qed.

Lemma strip_prefix_length (p s r : pystr) :
  strip_prefix p s = Some r ->
  List.length s = (List.length p + List.length r)%nat.
Proof.
  revert s. induction p as [|a p IH]; intros s; simpl.
  - intros H; now inversion H.
  - destruct s as [|b s]; [discriminate|].
    destruct (a =? b); [|discriminate].
    intros H. simpl. now rewrite (IH s H).
Qed.

Lemma match_integer_nonempty (s int r : pystr) :
  match_integer s = Some (int, r) -> int <> [].
Proof.
  destruct s as [|c s]; simpl; [discriminate|].
  destruct (c =? ZERO); [intros H; inversion H; discriminate|].
  destruct (is_digit c); [|discriminate].
  destruct (take_digits s). intros H; inversion H; discriminate.
Qed.

Lemma match_number_shorter (s integer frac exp r : pystr) :
  match_number s = Some (integer, frac, exp, r) ->
  (List.length r < List.length s)%nat.
Proof.
  intros H. pose proof (match_number_app _ _ _ _ _ H) as E.
  assert (integer <> []) as Hint.
  { assert (signed : forall sign s0,
      match match_integer s0 with
      | Some (int, r1) =>
          let (frac, r2) := match_frac r1 in
          let (exp, r3) := match_exp r2 in Some (sign ++ int, frac, exp, r3)
      | None => None
      end = Some (integer, frac, exp, r) -> integer <> []).
    { intros sign s0 Hs.
      destruct (match_integer s0) as [[int r1]|] eqn:E1; [|discriminate].
      destruct (match_frac r1) as [fr r2]. destruct (match_exp r2) as [ex r3].
      inversion Hs; subst. apply match_integer_nonempty in E1.
      intros Hnil. apply app_eq_nil in Hnil. tauto. }
    unfold match_number in H. destruct s as [|c s]; [discriminate|].
    cbv beta iota zeta in H. destruct (c =? MINUS).
    - exact (signed [c] s H).
    - exact (signed [] (c :: s) H). }
  rewrite E, !length_app. destruct integer; [congruence|simpl; lia].
Qed.

Section Consuming.

Variable scan : pystr -> option (value * pystr).

Hypothesis scan_consumes : consuming scan.

Lemma JSONArray_loop_shorter (n : nat) :
  forall s values rest,
    JSONArray_loop scan n s = Some (values, rest) ->
    (List.length rest < List.length s)%nat.
Proof.
  induction n as [|n IH]; intros s values rest H; cbn [JSONArray_loop] in H;
    [discriminate|].
  destruct (scan s) as [[v s1]|] eqn:E; [|discriminate].
  apply scan_consumes in E. pose proof (skip_ws_length s1) as Hws.
  destruct (skip_ws s1) as [|nextchar s2]; [discriminate|]. simpl in Hws.
  destruct (nextchar =? RBRACKET); [inversion H; subst; lia|].
  destruct (nextchar =? COMMA); [|discriminate].
  destruct (JSONArray_loop scan n (skip_ws s2)) as [[values' r]|] eqn:El;
    [|discriminate].
  inversion H; subst. apply IH in El. pose proof (skip_ws_length s2). lia.
Qed.

Lemma JSONObject_loop_shorter (n : nat) :
  forall s pairs rest,
    JSONObject_loop scan n s = Some (pairs, rest) ->
    (List.length rest < List.length s)%nat.
Proof.
  induction n as [|n IH]; intros s pairs rest H; cbn [JSONObject_loop] in H;
    [discriminate|].
  destruct (scanstring s) as [[key s1]|] eqn:Ekey; [|discriminate].
  apply (scanstring_shorter _ _ _ _ (le_n _)) in Ekey.
  pose proof (skip_ws_length s1) as Hws1.
  destruct (skip_ws s1) as [|colon s2]; [discriminate|]. simpl in Hws1.
  destruct (colon =? COLON); [|discriminate].
  destruct (scan (skip_ws s2)) as [[v s3]|] eqn:E; [|discriminate].
  apply scan_consumes in E. pose proof (skip_ws_length s2) as Hws2.
  pose proof (skip_ws_length s3) as Hws3.
  destruct (skip_ws s3) as [|nextchar s4]; [discriminate|]. simpl in Hws3.
  destruct (nextchar =? RBRACE); [inversion H; subst; lia|].
  destruct (nextchar =? COMMA); [|discriminate].
  pose proof (skip_ws_length s4) as Hws4.
  destruct (skip_ws s4) as [|q s5]; [discriminate|]. simpl in Hws4.
  destruct (q =? QUOTE); [|discriminate].
  destruct (JSONObject_loop scan n s5) as [[pairs' r]|] eqn:El; [|discriminate].
  inversion H; subst. apply IH in El. lia.
Qed.

(** The bound of the array loop is never reached: any bound from the
    length of the input on gives the same result. *)
Lemma JSONArray_loop_bound (n : nat) :
  forall m s,
    (List.length s <= n)%nat -> (List.length s <= m)%nat ->
    JSONArray_loop scan n s = JSONArray_loop scan m s.
Proof.
  assert (empty : forall k, JSONArray_loop scan k [] = None).
  { intros [|k]; [reflexivity|]. cbn [JSONArray_loop].
    destruct (scan []) as [[v s1]|] eqn:E; [|reflexivity].
    apply scan_consumes in E. simpl in E. lia. }
  induction n as [|n IH]; intros m s Hn Hm.
  - destruct s; [|simpl in Hn; lia]. now rewrite !empty.
  - destruct m as [|m].
    { destruct s; [|simpl in Hm; lia]. now rewrite !empty. }
    cbn [JSONArray_loop].
    destruct (scan s) as [[v s1]|] eqn:E; [|reflexivity].
    apply scan_consumes in E. pose proof (skip_ws_length s1) as Hws.
    destruct (skip_ws s1) as [|nextchar s2]; [reflexivity|]. simpl in Hws.
    destruct (nextchar =? RBRACKET); [reflexivity|].
    destruct (nextchar =? COMMA); [|reflexivity].
    pose proof (skip_ws_length s2).
    rewrite (IH m (skip_ws s2)) by lia. reflexivity.
Qed.

(** The bound of the object loop is never reached. *)
Lemma JSONObject_loop_bound (n : nat) :
  forall m s,
    (List.length s <= n)%nat -> (List.length s <= m)%nat ->
    JSONObject_loop scan n s = JSONObject_loop scan m s.
Proof.
  assert (empty : forall k, JSONObject_loop scan k [] = None)
    by (intros [|k]; reflexivity).
  induction n as [|n IH]; intros m s Hn Hm.
  - destruct s; [|simpl in Hn; lia]. now rewrite !empty.
  - destruct m as [|m].
    { destruct s; [|simpl in Hm; lia]. now rewrite !empty. }
    cbn [JSONObject_loop].
    destruct (scanstring s) as [[key s1]|] eqn:Ekey; [|reflexivity].
    apply (scanstring_shorter _ _ _ _ (le_n _)) in Ekey.
    pose proof (skip_ws_length s1) as Hws1.
    destruct (skip_ws s1) as [|colon s2]; [reflexivity|]. simpl in Hws1.
    destruct (colon =? COLON); [|reflexivity].
    destruct (scan (skip_ws s2)) as [[v s3]|] eqn:E; [|reflexivity].
    apply scan_consumes in E. pose proof (skip_ws_length s2) as Hws2.
    pose proof (skip_ws_length s3) as Hws3.
    destruct (skip_ws s3) as [|nextchar s4]; [reflexivity|]. simpl in Hws3.
    destruct (nextchar =? RBRACE); [reflexivity|].
    destruct (nextchar =? COMMA); [|reflexivity].
    pose proof (skip_ws_length s4) as Hws4.
    destruct (skip_ws s4) as [|q s5]; [reflexivity|]. simpl in Hws4.
    destruct (q =? QUOTE); [|reflexivity].
    rewrite (IH m s5) by lia. reflexivity.
Qed.

Lemma JSONArray_shorter (s : pystr) (v : value) (rest : pystr) :
  JSONArray scan s = Some (v, rest) -> (List.length rest < List.length s)%nat.
Proof.
  unfold JSONArray. intros H. pose proof (skip_ws_length s) as Hws.
  destruct (skip_ws s) as [|nextchar s1] eqn:Ews; [discriminate|].
  simpl in Hws.
  destruct (nextchar =? RBRACKET); [inversion H; subst; lia|].
  destruct (JSONArray_loop scan (List.length s) (nextchar :: s1))
    as [[values r]|] eqn:El; [|discriminate].
  inversion H; subst. apply JSONArray_loop_shorter in El. simpl in El. lia.
Qed.

Lemma JSONObject_shorter (s : pystr) (v : value) (rest : pystr) :
  JSONObject scan s = Some (v, rest) -> (List.length rest < List.length s)%nat.
Proof.
  unfold JSONObject. intros H. pose proof (skip_ws_length s) as Hws.
  destruct (skip_ws s) as [|nextchar s1] eqn:Ews; [discriminate|].
  simpl in Hws.
  destruct (nextchar =? RBRACE); [inversion H; subst; lia|].
  destruct (nextchar =? QUOTE); [|discriminate].
  destruct (JSONObject_loop scan (List.length s) s1)
    as [[pairs r]|] eqn:El; [|discriminate].
  inversion H; subst. apply JSONObject_loop_shorter in El. lia.
Qed.

(** The container parsers call the scanner on shorter inputs only: two
    scanners that agree up to a length give the same containers. *)
Variable scan' : pystr -> option (value * pystr).
Variable bound : nat.
Hypothesis scans_agree :
  forall s, (List.length s <= bound)%nat -> scan s = scan' s.

Lemma JSONArray_loop_agree (n : nat) :
  forall s, (List.length s <= bound)%nat ->
            JSONArray_loop scan n s = JSONArray_loop scan' n s.
Proof.
  induction n as [|n IH]; intros s Hs; [reflexivity|].
  cbn [JSONArray_loop]. rewrite <- scans_agree by assumption.
  destruct (scan s) as [[v s1]|] eqn:E; [|reflexivity].
  apply scan_consumes in E. pose proof (skip_ws_length s1) as Hws.
  destruct (skip_ws s1) as [|nextchar s2]; [reflexivity|]. simpl in Hws.
  destruct (nextchar =? RBRACKET); [reflexivity|].
  destruct (nextchar =? COMMA); [|reflexivity].
  pose proof (skip_ws_length s2).
  rewrite (IH (skip_ws s2)) by lia. reflexivity.
Qed.

Lemma JSONObject_loop_agree (n : nat) :
  forall s, (List.length s <= bound)%nat ->
            JSONObject_loop scan n s = JSONObject_loop scan' n s.
Proof.
  induction n as [|n IH]; intros s Hs; [reflexivity|].
  cbn [JSONObject_loop].
  destruct (scanstring s) as [[key s1]|] eqn:Ekey; [|reflexivity].
  apply (scanstring_shorter _ _ _ _ (le_n _)) in Ekey.
  pose proof (skip_ws_length s1) as Hws1.
  destruct (skip_ws s1) as [|colon s2] eqn:E1; [reflexivity|]. simpl in Hws1.
  destruct (colon =? COLON); [|reflexivity].
  pose proof (skip_ws_length s2) as Hws2.
  rewrite <- scans_agree by lia.
  destruct (scan (skip_ws s2)) as [[v s3]|] eqn:E; [|reflexivity].
  apply scan_consumes in E.
  pose proof (skip_ws_length s3) as Hws3.
  destruct (skip_ws s3) as [|nextchar s4]; [reflexivity|]. simpl in Hws3.
  destruct (nextchar =? RBRACE); [reflexivity|].
  destruct (nextchar =? COMMA); [|reflexivity].
  pose proof (skip_ws_length s4) as Hws4.
  destruct (skip_ws s4) as [|q s5]; [reflexivity|]. simpl in Hws4.
  destruct (q =? QUOTE); [|reflexivity].
  rewrite (IH s5) by lia. reflexivity.
Qed.

Lemma JSONArray_agree (s : pystr) :
  (List.length s <= bound)%nat -> JSONArray scan s = JSONArray scan' s.
Proof.
  intros Hs. unfold JSONArray. pose proof (skip_ws_length s).
  now rewrite JSONArray_loop_agree by lia.
Qed.

Lemma JSONObject_agree (s : pystr) :
  (List.length s <= bound)%nat -> JSONObject scan s = JSONObject scan' s.
Proof.
  intros Hs. unfold JSONObject. pose proof (skip_ws_length s) as Hws.
  destruct (skip_ws s) as [|nextchar s1]; [reflexivity|]. simpl in Hws.
  now rewrite JSONObject_loop_agree by lia.
Qed.

End Consuming.

Lemma scan_once_consuming (fuel : nat) : consuming (scan_once fuel).
Proof.
  induction fuel as [|fuel IH]; intros s v rest H; [discriminate|].
  cbn [scan_once] in H. destruct s as [|nextchar s']; [discriminate|].
  destruct (nextchar =? QUOTE).
  { destruct (scanstring s') as [[chars r]|] eqn:E; [|discriminate].
    inversion H; subst.
    apply (scanstring_shorter _ _ _ _ (le_n _)) in E. simpl. lia. }
  destruct (nextchar =? LBRACE).
  { apply (JSONObject_shorter _ IH) in H. simpl. lia. }
  destruct (nextchar =? LBRACKET).
  { apply (JSONArray_shorter _ IH) in H. simpl. lia. }
  destruct (strip_prefix (lit "null") (nextchar :: s')) as [r|] eqn:E1.
  { inversion H; subst. apply strip_prefix_length in E1. rewrite E1. simpl. lia. }
  destruct (strip_prefix (lit "true") (nextchar :: s')) as [r|] eqn:E2.
  { inversion H; subst. apply strip_prefix_length in E2. rewrite E2. simpl. lia. }
  destruct (strip_prefix (lit "false") (nextchar :: s')) as [r|] eqn:E3.
  { inversion H; subst. apply strip_prefix_length in E3. rewrite E3. simpl. lia. }
  destruct (match_number (nextchar :: s')) as [[[[integer frac] exp] r]|] eqn:Em.
  { apply match_number_shorter in Em.
    destruct frac, exp; inversion H; subst; assumption. }
  destruct (strip_prefix (lit "NaN") (nextchar :: s')) as [r|] eqn:E4.
  { inversion H; subst. apply strip_prefix_length in E4. rewrite E4. simpl. lia. }
  destruct (strip_prefix (lit "Infinity") (nextchar :: s')) as [r|] eqn:E5.
  { inversion H; subst. apply strip_prefix_length in E5. rewrite E5. simpl. lia. }
  destruct (strip_prefix (lit "-Infinity") (nextchar :: s')) as [r|] eqn:E6;
    [|discriminate].
  inversion H; subst. apply strip_prefix_length in E6. rewrite E6. simpl. lia.
Qed.

(** The nesting of a text is less than its length: with more fuel than
    the text is long, the scanner's result is the same whatever the
    fuel.  So [None] stands for an error of the text, never for a lack
    of fuel. *)
Theorem scan_once_fuel (fuel : nat) :
  forall s fuel',
    (List.length s < fuel)%nat -> (fuel <= fuel')%nat ->
    scan_once fuel' s = scan_once fuel s.
Proof.
  induction fuel as [|fuel IH]; intros s fuel' Hs Hf; [lia|].
  destruct fuel' as [|fuel']; [lia|].
  cbn [scan_once]. destruct s as [|nextchar s']; [reflexivity|].
  simpl in Hs.
  destruct (nextchar =? QUOTE); [reflexivity|].
  assert (agree : forall s0, (List.length s0 <= List.length s')%nat ->
                             scan_once fuel' s0 = scan_once fuel s0)
    by (intros s0 Hs0; apply IH; lia).
  destruct (nextchar =? LBRACE).
  { apply (JSONObject_agree _ (scan_once_consuming fuel') _ _ agree). lia. }
  destruct (nextchar =? LBRACKET).
  { apply (JSONArray_agree _ (scan_once_consuming fuel') _ _ agree). lia. }
  reflexivity.
Qed.

(** [json.loads] gives the scanner enough fuel. *)
Corollary loads_fuel (s : pystr) (fuel : nat) :
  (List.length s < fuel)%nat ->
  scan_once fuel (skip_ws s) = scan_once (S (List.length s)) (skip_ws s).
Proof.
  intros Hf. pose proof (skip_ws_length s).
  apply scan_once_fuel; lia.
Qed.

(** ** The trimmer on parsed data *)

Lemma annual_neq_quarterly :
  pystr_eqb (lit "annualReports") (lit "quarterlyReports") = false.
Proof. reflexivity. Qed.

Lemma quarterly_neq_annual :
  pystr_eqb (lit "quarterlyReports") (lit "annualReports") = false.
Proof. reflexivity. Qed.

Lemma dict_get_cut_other (key k : pystr) (limit : nat) (d : list (pystr * value)) :
  pystr_eqb key k = false -> dict_get (cut_field key limit d) k = dict_get d k.
Proof.
  intros Hk. unfold cut_field. destruct (dict_get d key); [|reflexivity].
  now rewrite dict_get_set, Hk.
Qed.

Lemma dict_get_cut_same (key : pystr) (limit : nat) (d : list (pystr * value)) :
  dict_get (cut_field key limit d) key =
  match dict_get d key with
  | Some x => Some (sliced limit x)
  | None => None
  end.
Proof.
  unfold cut_field. destruct (dict_get d key) eqn:E; [|exact E].
  now rewrite dict_get_set, pystr_eqb_refl.
Qed.

(** One [if] statement of the trimmer on a dict, followed by [k]. *)
Lemma trim_step_dict {B : Type} (key : pystr) (limit : nat)
  (d : list (pystr * value)) (k : value -> result B) :
  (has <- contains (VDict d) key ;;
   data <- (if has : bool then
              reports <- getitem (VDict d) key ;;
              trimmed <- slice_to reports limit ;;
              setitem (VDict d) key trimmed
            else Ok (VDict d)) ;;
   k data)
  = if sliceable (dict_get d key) then k (VDict (cut_field key limit d))
    else Raise (slice_error (dict_get d key)).
Proof.
  unfold cut_field. cbn [contains getitem bind].
  destruct (dict_get d key) as [x|]; [|reflexivity].
  cbn [bind]. destruct x; reflexivity.
Qed.

(** One [if] statement on data that is not a dict: nothing changes when
    the key is not found, and [data[key]] raises when it is. *)
Lemma trim_step_other {B : Type} (key : pystr) (limit : nat) (data : value)
  (found : bool) (k : value -> result B) :
  (forall d, data <> VDict d) ->
  contains data key = Ok found ->
  (has <- contains data key ;;
   data' <- (if has : bool then
               reports <- getitem data key ;;
               trimmed <- slice_to reports limit ;;
               setitem data key trimmed
             else Ok data) ;;
   k data')
  = if found then Raise TypeError else k data.
Proof.
  intros Hnd Hc. rewrite Hc. cbn [bind].
  destruct found; [|reflexivity].
  destruct data; try reflexivity. now destruct (Hnd d).
Qed.

(** The two [if] statements: the trimmed data on trimmable data, and an
    exception on any other. *)
Theorem trim_data_spec (data : value) :
  trim_data data
  = if trimmable data then Ok (trimmed data) else Raise (trim_error data).
Proof.
  unfold trim_data.
  destruct data as [ |b|z|f|s|l|d]; try reflexivity.
  - rewrite (trim_step_other _ _ (VStr s) (is_substring (lit "annualReports") s))
      by (discriminate || reflexivity).
    cbn [trimmable trimmed].
    destruct (is_substring (lit "annualReports") s); [reflexivity|].
    rewrite (trim_step_other _ _ (VStr s) (is_substring (lit "quarterlyReports") s))
      by (discriminate || reflexivity).
    now destruct (is_substring (lit "quarterlyReports") s).
  - rewrite (trim_step_other _ _ (VList l) (existsb (eq_str (lit "annualReports")) l))
      by (discriminate || reflexivity).
    cbn [trimmable trimmed].
    destruct (existsb (eq_str (lit "annualReports")) l); [reflexivity|].
    rewrite (trim_step_other _ _ (VList l) (existsb (eq_str (lit "quarterlyReports")) l))
      by (discriminate || reflexivity).
    now destruct (existsb (eq_str (lit "quarterlyReports")) l).
  - rewrite trim_step_dict. cbn [trimmable trimmed trim_error].
    destruct (sliceable (dict_get d (lit "annualReports"))); [|reflexivity].
    cbn [andb]. rewrite trim_step_dict.
    rewrite dict_get_cut_other by apply annual_neq_quarterly.
    now destruct (sliceable (dict_get d (lit "quarterlyReports"))).
Qed.

(** The trimmer, by what its input parses to. *)
Theorem trim_spec (response_text : pystr) :
  _trim_financial_reports response_text =
  match loads response_text with
  | None => Ok response_text
  | Some data =>
      if trimmable data then Ok (dumps (trimmed data))
      else Raise (trim_error data)
  end.
Proof.
  unfold _trim_financial_reports.
  destruct (loads response_text) as [data|]; [|reflexivity].
  rewrite trim_data_spec. now destruct (trimmable data).
Qed.


Lemma dict_set_same (d : list (pystr * value)) (k : pystr) (v : value) :
  dict_get d k = Some v -> dict_set d k v = d.
Proof.
  induction d as [|[k' v'] d IH]; simpl; [discriminate|].
  destruct (pystr_eqb k' k); intros H.
  - now inversion H.
  - now rewrite IH.
Qed.



Lemma sliced_idem (n : nat) (x : value) : sliced n (sliced n x) = sliced n x.
Proof.
  destruct x; simpl; try reflexivity;
    now rewrite firstn_firstn, Nat.min_id.
Qed.

(** Cutting a field that is already cut changes nothing. *)
Lemma cut_field_fixed (key : pystr) (limit : nat) (d : list (pystr * value)) :
  (forall x, dict_get d key = Some x -> sliced limit x = x) ->
  cut_field key limit d = d.
Proof.
  intros H. unfold cut_field. destruct (dict_get d key) as [x|] eqn:E; [|reflexivity].
  rewrite (H x eq_refl). now apply dict_set_same.
Qed.

Theorem trimmed_idem (data : value) : trimmed (trimmed data) = trimmed data.
Proof.
  destruct data as [ |b|z|f|s|l|d]; try reflexivity.
  cbn [trimmed]. f_equal.
  set (e := cut_field (lit "annualReports") MAX_ANNUAL_REPORTS d).
  set (e' := cut_field (lit "quarterlyReports") MAX_QUARTERLY_REPORTS e).
  assert (cut_field (lit "annualReports") MAX_ANNUAL_REPORTS e' = e') as ->.
  { apply cut_field_fixed. intros x. unfold e'.
    rewrite dict_get_cut_other by apply quarterly_neq_annual.
    unfold e. rewrite dict_get_cut_same.
    destruct (dict_get d (lit "annualReports")); [|discriminate].
    intros H; inversion H. apply sliced_idem. }
  apply cut_field_fixed. intros x. unfold e'. rewrite dict_get_cut_same.
  destruct (dict_get e (lit "quarterlyReports")); [|discriminate].
  intros H; inversion H. apply sliced_idem.
Qed.

Lemma sliceable_sliced (n : nat) (x : option value) :
  sliceable x = true ->
  sliceable (match x with Some y => Some (sliced n y) | None => None end) = true.
Proof. destruct x as [[ | | | | | | ]|]; simpl; congruence. Qed.

Lemma existsb_firstn {A : Type} (p : A -> bool) (n : nat) (l : list A) :
  existsb p l = false -> existsb p (firstn n l) = false.
Proof.
  revert n. induction l as [|a l IH]; intros [|n]; simpl; try reflexivity.
  intros H. apply orb_false_iff in H as [Ha Hl]. now rewrite Ha, IH.
Qed.

Theorem trimmable_trimmed (data : value) :
  trimmable data = true -> trimmable (trimmed data) = true.
Proof.
  destruct data as [ |b|z|f|s|l|d]; try (intros H; exact H).
  cbn [trimmable trimmed]. intros H. apply andb_true_iff in H as [HA HQ].
  apply andb_true_iff. split.
  - rewrite dict_get_cut_other by apply quarterly_neq_annual.
    rewrite dict_get_cut_same. now apply sliceable_sliced.
  - rewrite dict_get_cut_same.
    rewrite dict_get_cut_other by apply annual_neq_quarterly.
    now apply sliceable_sliced.
Qed.

Lemma forallb_firstn {A : Type} (p : A -> bool) (n : nat) (l : list A) :
  forallb p l = true -> forallb p (firstn n l) = true.
Proof.
  revert n. induction l as [|a l IH]; intros [|n]; simpl; try reflexivity.
  intros H. apply andb_true_iff in H as [Ha Hl]. now rewrite Ha, IH.
Qed.

Lemma str_ok_firstn (n : nat) (s : pystr) :
  str_ok s = true -> str_ok (firstn n s) = true.
Proof.
  revert n. induction s as [|c s IH]; intros [|n]; try reflexivity.
  intros H. apply str_ok_cons in H as (Hc & Hs & Hpair).
  cbn [firstn str_ok]. rewrite (IH n Hs), (proj2 (N.ltb_lt _ _) Hc).
  rewrite andb_true_r. cbn [andb]. apply negb_true_iff.
  destruct (is_high_surrogate c); [|reflexivity]. specialize (Hpair eq_refl).
  destruct s as [|c' s]; [now destruct n|]. destruct n; [reflexivity|].
  cbn [firstn andb]. exact Hpair.
Qed.

Lemma value_ok_sliced (n : nat) (x : value) :
  value_ok x = true -> value_ok (sliced n x) = true.
Proof.
  destruct x; simpl; auto.
  - apply str_ok_firstn.
  - apply forallb_firstn.
Qed.

Lemma dict_get_entry_ok (d : list (pystr * value)) (k : pystr) (x : value) :
  forallb entry_ok d = true -> dict_get d k = Some x -> value_ok x = true.
Proof.
  induction d as [|[k' v'] d IH]; simpl; [discriminate|].
  intros H. apply andb_true_iff in H as [H0 Hd].
  destruct (pystr_eqb k' k); intros E.
  - inversion E; subst. unfold entry_ok in H0. cbn [snd] in H0.
    now apply andb_true_iff in H0.
  - now apply IH.
Qed.

Lemma value_ok_dict (d : list (pystr * value)) :
  value_ok (VDict d) = distinct_keys d && forallb entry_ok d.
Proof. reflexivity. Qed.

Lemma value_ok_cut (key : pystr) (limit : nat) (d : list (pystr * value)) :
  str_ok key = true -> value_ok (VDict d) = true ->
  value_ok (VDict (cut_field key limit d)) = true.
Proof.
  rewrite !value_ok_dict. intros Hkey H. apply andb_true_iff in H as [H1 H2].
  unfold cut_field. destruct (dict_get d key) as [x|] eqn:E.
  - apply andb_true_iff. split.
    + now apply distinct_keys_set.
    + apply entries_ok_set; [assumption|].
      unfold entry_ok. cbn [fst snd]. rewrite Hkey. cbn [andb].
      apply value_ok_sliced. eapply dict_get_entry_ok; eauto.
  - now rewrite H1, H2.
Qed.

Theorem value_ok_trimmed (data : value) :
  value_ok data = true -> value_ok (trimmed data) = true.
Proof.
  destruct data as [ |b|z|f|s|l|d]; try (intros H; exact H).
  intros H. cbn [trimmed]. apply value_ok_cut; [reflexivity|].
  apply value_ok_cut; [reflexivity|assumption].
Qed.

(** ** The text [json.dumps] writes is ASCII *)

Lemma newline_indent_ascii (level : nat) : ascii_text (newline_indent level).
Proof.
  unfold newline_indent. constructor; [reflexivity|].
  induction (2 * level)%nat; simpl; constructor; [reflexivity|assumption].
Qed.

Lemma flat_map_ascii {A : Type} (f : A -> pystr) (l : list A) :
  Forall (fun a => ascii_text (f a)) l -> ascii_text (flat_map f l).
Proof.
  induction 1; simpl; [constructor|]. apply Forall_app. now split.
Qed.

Theorem iterencode_ascii (v : value) :
  forall level, ascii_text (iterencode v level).
Proof.
  induction v as [ |b|z|f|s|l IH|d IH] using value_ind; intros level.
  - repeat constructor.
  - destruct b; repeat constructor.
  - apply int_repr_ascii.
  - destruct f; try (repeat constructor; fail). apply float_repr_ascii.
  - apply encode_basestring_ascii_ascii.
  - destruct l as [|first lst]; [repeat constructor|].
    rewrite iterencode_list. inversion IH as [|? ? Hfirst Hlst]; subst.
    constructor; [reflexivity|].
    repeat (apply Forall_app; split);
      try apply newline_indent_ascii; try apply Hfirst;
      try (repeat constructor; fail).
    apply flat_map_ascii. eapply Forall_impl; [|exact Hlst].
    intros x Hx. constructor; [reflexivity|].
    apply Forall_app; split; [apply newline_indent_ascii|apply Hx].
  - destruct d as [|[key first] dct]; [repeat constructor|].
    rewrite iterencode_dict. inversion IH as [|? ? Hfirst Hlst]; subst.
    constructor; [reflexivity|].
    repeat (apply Forall_app; split);
      try apply newline_indent_ascii; try apply Hfirst;
      try apply encode_basestring_ascii_ascii;
      try (repeat constructor; fail).
    apply flat_map_ascii. eapply Forall_impl; [|exact Hlst].
    intros x Hx. constructor; [reflexivity|].
    repeat (apply Forall_app; split);
      try apply newline_indent_ascii; try apply Hx;
      try apply encode_basestring_ascii_ascii;
      try (repeat constructor; fail).
Qed.

(** ** The trimmer on text *)


Lemma trimmed_dict_get (d : list (pystr * value)) (k : pystr) :
  dict_get (cut_field (lit "quarterlyReports") MAX_QUARTERLY_REPORTS
              (cut_field (lit "annualReports") MAX_ANNUAL_REPORTS d)) k
  = if pystr_eqb (lit "annualReports") k then
      option_map (sliced MAX_ANNUAL_REPORTS) (dict_get d k)
    else if pystr_eqb (lit "quarterlyReports") k then
      option_map (sliced MAX_QUARTERLY_REPORTS) (dict_get d k)
    else dict_get d k.
Proof.
  destruct (pystr_eqb (lit "annualReports") k) eqn:EA.
  - apply pystr_eqb_eq in EA. subst k.
    rewrite dict_get_cut_other by apply quarterly_neq_annual.
    rewrite dict_get_cut_same. now destruct (dict_get d _).
  - destruct (pystr_eqb (lit "quarterlyReports") k) eqn:EQ.
    + apply pystr_eqb_eq in EQ. subst k.
      rewrite dict_get_cut_same.
      rewrite dict_get_cut_other by apply annual_neq_quarterly.
      now destruct (dict_get d _).
    + now rewrite !dict_get_cut_other by assumption.
Qed.










(** ** The retrieval functions *)

Lemma bind_ok {A : Type} (m : result A) : (x <- m ;; Ok x) = m.
Proof. now destruct m. Qed.

(** One call to the helper, and a pure function of its response. *)
Lemma run_request {A : Type}
  (_make_api_request : pystr -> list (pystr * pystr) -> result pystr)
  (function_name : pystr) (params : list (pystr * pystr))
  (after : pystr -> result A) :
  run _make_api_request
      (MakeApiRequest function_name params (fun text => Return (after text)))
  = ([(function_name, params)],
     text <- _make_api_request function_name params ;; after text).
Proof.
  cbn [run]. now destruct (_make_api_request function_name params).
Qed.

(** C7.  [get_fundamentals] calls the request helper once, for the
    report type "OVERVIEW" with the parameters {"symbol": ticker}, and
    its outcome is the helper's outcome: the raw response text, whatever
    it contains. *)
Theorem get_fundamentals_raw
  (_make_api_request : pystr -> list (pystr * pystr) -> result pystr)
  (ticker : pystr) (curr_date : option pystr) :
  run _make_api_request (get_fundamentals ticker curr_date)
  = ([(lit "OVERVIEW", [(lit "symbol", ticker)])],
     _make_api_request (lit "OVERVIEW") [(lit "symbol", ticker)]).
Proof.
  unfold get_fundamentals. cbv zeta. rewrite run_request. now rewrite bind_ok.
Qed.


(** C9.  The [freq] and [curr_date] arguments have no effect: two calls
    of one retrieval function for the same ticker make the same call to
    the request helper, whatever the helper, and have the same outcome
    when the helper answers that call in the same way. *)
Theorem freq_and_date_have_no_effect
  (h1 h2 : pystr -> list (pystr * pystr) -> result pystr)
  (ticker freq1 freq2 : pystr) (date1 date2 : option pystr) :
  let params := [(lit "symbol", ticker)] in
  (fst (run h1 (get_balance_sheet ticker freq1 date1))
   = fst (run h2 (get_balance_sheet ticker freq2 date2))
   /\ (h1 (lit "BALANCE_SHEET") params = h2 (lit "BALANCE_SHEET") params ->
       run h1 (get_balance_sheet ticker freq1 date1)
       = run h2 (get_balance_sheet ticker freq2 date2)))
  /\ (fst (run h1 (get_cashflow ticker freq1 date1))
      = fst (run h2 (get_cashflow ticker freq2 date2))
      /\ (h1 (lit "CASH_FLOW") params = h2 (lit "CASH_FLOW") params ->
          run h1 (get_cashflow ticker freq1 date1)
          = run h2 (get_cashflow ticker freq2 date2)))
  /\ (fst (run h1 (get_income_statement ticker freq1 date1))
      = fst (run h2 (get_income_statement ticker freq2 date2))
      /\ (h1 (lit "INCOME_STATEMENT") params = h2 (lit "INCOME_STATEMENT") params ->
          run h1 (get_income_statement ticker freq1 date1)
          = run h2 (get_income_statement ticker freq2 date2)))
  /\ (fst (run h1 (get_fundamentals ticker date1))
      = fst (run h2 (get_fundamentals ticker date2))
      /\ (h1 (lit "OVERVIEW") params = h2 (lit "OVERVIEW") params ->
          run h1 (get_fundamentals ticker date1)
          = run h2 (get_fundamentals ticker date2))).
Proof.
  unfold get_balance_sheet, get_cashflow, get_income_statement, get_fundamentals.
  cbv zeta. rewrite !run_request. cbn [fst].
  repeat split; intros ->; reflexivity.
Qed.

(** ** Further properties of the trimmer *)

Lemma strip_prefix_head (a : N) (p : pystr) (c : N) (rest : pystr) :
  a <> c -> strip_prefix (a :: p) (c :: rest) = None.
Proof. intros H. cbn [strip_prefix]. now rewrite (proj2 (N.eqb_neq a c)). Qed.

(** The scanner stops at once on a character that starts no value. *)
Lemma scan_once_not_value (fuel : nat) (c : N) (rest : pystr) :
  ~ value_head c -> scan_once fuel (c :: rest) = None.
Proof.
  intros H. unfold value_head in H.
  assert (Hnum : match_number (c :: rest) = None).
  { destruct (match_number (c :: rest)) as [[[[i f] e] r]|] eqn:E;
      [|reflexivity].
    apply match_number_head in E as (c' & tl & Heq & Hc).
    inversion Heq; subst c' tl. exfalso. apply H. tauto. }
  destruct fuel as [|fuel]; [reflexivity|].
  cbn [scan_once].
  rewrite (proj2 (N.eqb_neq c QUOTE)) by tauto.
  rewrite (proj2 (N.eqb_neq c LBRACE)) by tauto.
  rewrite (proj2 (N.eqb_neq c LBRACKET)) by tauto.
  rewrite (strip_prefix_head 110 (lit "ull")) by (intros <-; tauto).
  rewrite (strip_prefix_head 116 (lit "rue")) by (intros <-; tauto).
  rewrite (strip_prefix_head 102 (lit "alse")) by (intros <-; tauto).
  rewrite Hnum.
  rewrite (strip_prefix_head 78 (lit "aN")) by (intros <-; tauto).
  rewrite (strip_prefix_head 73 (lit "nfinity")) by (intros <-; tauto).
  rewrite (strip_prefix_head MINUS (lit "Infinity")) by (intros <-; tauto).
  reflexivity.
Qed.

(** X1.  A text that is empty, that is white space only, or whose first
    character after the leading white space starts no JSON value (it is
    not a double quote, a brace, a bracket, a minus sign, a digit or one
    of the letters n, t, f, N and I) is returned as it is: a plain
    message of the request helper goes through the trimmer untouched. *)
Theorem not_a_value_returned_unchanged (s : pystr) :
  match skip_ws s with
  | [] => True
  | c :: _ => ~ value_head c
  end ->
  _trim_financial_reports s = Ok s.
Proof.
  intros H. unfold _trim_financial_reports, loads.
  destruct (strip_prefix [0xfeff] s); [reflexivity|].
  destruct (skip_ws s) as [|c rest]; [reflexivity|].
  now rewrite scan_once_not_value.
Qed.


Lemma within_sliced (limit : nat) (x : option value) :
  sliceable x = true -> within limit (option_map (sliced limit) x) = true.
Proof.
  destruct x as [[ | | | |s|l| ]|]; simpl; try discriminate; intros _;
    try reflexivity; apply Nat.leb_le; rewrite length_firstn; lia.
Qed.

Lemma cut_within_limits (d : list (pystr * value)) :
  sliceable (dict_get d (lit "annualReports")) = true ->
  sliceable (dict_get d (lit "quarterlyReports")) = true ->
  within_limits
    (cut_field (lit "quarterlyReports") MAX_QUARTERLY_REPORTS
       (cut_field (lit "annualReports") MAX_ANNUAL_REPORTS d)) = true.
Proof.
  intros HA HQ. unfold within_limits. rewrite !trimmed_dict_get.
  rewrite pystr_eqb_refl, annual_neq_quarterly, pystr_eqb_refl.
  now rewrite !within_sliced.
Qed.

(** What the trimmer returns on an object, with what it parses to. *)
Lemma trim_object (s out : pystr) (d : list (pystr * value)) :
  scalar_text s = true ->
  loads s = Some (VDict d) ->
  _trim_financial_reports s = Ok out ->
  sliceable (dict_get d (lit "annualReports")) = true
  /\ sliceable (dict_get d (lit "quarterlyReports")) = true
  /\ out = dumps (trimmed (VDict d))
  /\ value_ok (trimmed (VDict d)) = true
  /\ loads out = Some (trimmed (VDict d)).
Proof.
  intros Hs Hloads Hout. rewrite trim_spec, Hloads in Hout.
  destruct (trimmable (VDict d)) eqn:Ht; [|discriminate].
  inversion Hout; subst out. cbn [trimmable] in Ht.
  apply andb_true_iff in Ht as [HA HQ].
  assert (value_ok (trimmed (VDict d)) = true) as Hok
    by (apply value_ok_trimmed; now apply (loads_ok s)).
  repeat split; try assumption. now apply loads_dumps.
Qed.

(** X3.  Whenever the trimmer returns on a text of Unicode scalar values
    that parses to an object, the output parses to an object whose report
    fields are within the limits: at most two items under
    "annualReports", at most four under "quarterlyReports". *)
Theorem output_within_limits (s out : pystr) (d : list (pystr * value)) :
  scalar_text s = true ->
  loads s = Some (VDict d) ->
  _trim_financial_reports s = Ok out ->
  exists d', loads out = Some (VDict d') /\ within_limits d' = true.
Proof.
  intros Hs Hloads Hout.
  destruct (trim_object s out d Hs Hloads Hout) as (HA & HQ & _ & _ & Hback).
  eexists. split; [exact Hback|]. now apply cut_within_limits.
Qed.





Lemma ascii_scalar (s : pystr) : ascii_text s -> scalar_text s = true.
Proof.
  intros H. apply forallb_forall. intros c Hc.
  pose proof (proj1 (Forall_forall _ _) H c Hc) as Hlt. cbv beta in Hlt.
  apply is_scalar_spec. lia.
Qed.

Lemma trim_output_fixed (s out : pystr) :
  scalar_text s = true ->
  _trim_financial_reports s = Ok out ->
  _trim_financial_reports out = Ok out.
Proof.
  intros Hs Hout. rewrite trim_spec in Hout.
  destruct (loads s) as [data|] eqn:Hloads.
  - destruct (trimmable data) eqn:Ht; [|discriminate].
    inversion Hout; subst out.
    pose proof (loads_ok s _ Hs Hloads) as Hok.
    rewrite trim_spec, loads_dumps by now apply value_ok_trimmed.
    now rewrite trimmable_trimmed, trimmed_idem.
  - inversion Hout; subst out. rewrite trim_spec. now rewrite Hloads.
Qed.

(** X6.  On any input, surrogate code points included, a second
    application of the trimmer reaches a fixed point: when the trimmer
    returns [o1] on the input and [o2] on [o1], it returns [o2] on
    [o2]. *)
Theorem trim_twice_is_fixed (s o1 o2 : pystr) :
  _trim_financial_reports s = Ok o1 ->
  _trim_financial_reports o1 = Ok o2 ->
  _trim_financial_reports o2 = Ok o2.
Proof.
  intros H1 H2. rewrite trim_spec in H1.
  destruct (loads s) as [data|] eqn:Hloads.
  - destruct (trimmable data); [|discriminate]. inversion H1; subst o1.
    apply (trim_output_fixed (dumps (trimmed data))); [|exact H2].
    apply ascii_scalar. apply iterencode_ascii.
  - inversion H1; subst o1. rewrite trim_spec, Hloads in H2.
    inversion H2; subst o2. now rewrite trim_spec, Hloads.
Qed.




(** ** Further properties of the retrieval functions *)

(** X8.  An exception of the request helper is the outcome of each of
    the four retrieval functions, after the one call: the trimmer is not
    run and nothing is caught. *)
Theorem helper_exception_is_outcome
  (h : pystr -> list (pystr * pystr) -> result pystr)
  (get : pystr -> pystr -> option pystr -> api pystr) (report : pystr)
  (ticker freq : pystr) (curr_date : option pystr) (e : exn) :
  In (get, report)
     [(fun ticker _ curr_date => get_fundamentals ticker curr_date,
       lit "OVERVIEW");
      (get_balance_sheet, lit "BALANCE_SHEET");
      (get_cashflow, lit "CASH_FLOW");
      (get_income_statement, lit "INCOME_STATEMENT")] ->
  h report [(lit "symbol", ticker)] = Raise e ->
  run h (get ticker freq curr_date)
  = ([(report, [(lit "symbol", ticker)])], Raise e).
Proof.
  intros [E|[E|[E|[E|[]]]]] Hh; injection E as <- <-;
    unfold get_fundamentals, get_balance_sheet, get_cashflow,
      get_income_statement;
    cbv zeta; rewrite run_request, Hh; reflexivity.
Qed.



(** ** The text [json.dumps] writes has no control characters *)


















End Json.

Arguments VNone {F}.
Arguments VBool {F} b.
Arguments VInt {F} z.
Arguments VFloat {F} f.
Arguments VStr {F} s.
Arguments VList {F} l.
Arguments VDict {F} d.
Arguments dict_get {F} d k.
Arguments loads {F} float_of_literal s.
Arguments dumps {F} float_repr data.
Arguments trimmable {F} data.
Arguments trimmed {F} data.
Arguments sliceable {F} x.
Arguments within_limits {F} d.
Arguments _trim_financial_reports {F} float_of_literal float_repr version response_text.
Arguments get_balance_sheet {F} float_of_literal float_repr version ticker freq curr_date.
Arguments get_cashflow {F} float_of_literal float_repr version ticker freq curr_date.
Arguments get_income_statement {F} float_of_literal float_repr version ticker freq curr_date.

(** ** The whole-number floats meet the contract of the conversions *)

Lemma match_number_whole_repr (x : whole_float) :
  match_number (whole_repr x) = Some (int_repr x, lit ".0", [], []).
Proof.
  assert (Hint : forall n,
            match_integer (nat_repr n ++ lit ".0") = Some (nat_repr n, lit ".0")).
  { intros n.
    apply (match_integer_extend (nat_repr n) (lit ".0") (nat_repr n) []);
      [apply match_integer_nat_repr|reflexivity]. }
  assert (Hnat : forall n,
            match_number (nat_repr n ++ lit ".0")
            = Some (nat_repr n, lit ".0", [], [])).
  { intros n. specialize (Hint n).
    destruct (nat_repr_head n) as (d & ds & E & Hd). rewrite E in *.
    unfold match_number. cbn [app]. apply is_digit_bounds in Hd.
    rewrite (proj2 (N.eqb_neq d MINUS)) by lia.
    cbn [app] in Hint. now rewrite Hint. }
  unfold whole_repr. destruct x as [|p|p]; cbn [int_repr]; try apply Hnat.
  unfold match_number. cbn [app]. change (MINUS =? MINUS) with true. cbv iota.
  now rewrite Hint.
Qed.

Lemma whole_repr_literal (x : whole_float) :
  is_float_literal (whole_repr x) = true.
Proof. unfold is_float_literal. now rewrite match_number_whole_repr. Qed.

Lemma whole_of_repr (x : whole_float) :
  whole_of_literal (whole_repr x) = Finite x.
Proof.
  unfold whole_of_literal. rewrite match_number_whole_repr.
  now rewrite parse_int_repr.
Qed.

(** ** Examples, witnesses and counterexamples

    They run the module on the whole-number floats, none of their inputs
    has a float in it, and on Python 3.12 or later. *)

Abbreviation trim :=
  (_trim_financial_reports whole_of_literal whole_repr From_3_12).
Abbreviation parse := (loads whole_of_literal).
Abbreviation unparse := (dumps whole_repr).

(** The scenario of the specification: three annual reports are cut to
    two, and the single quarterly report is kept. *)
Example scenario_three_annual_one_quarterly :
  exists out,
    trim (quoted "{'annualReports':[{'a':1},{'a':2},{'a':3}],'quarterlyReports':[{'q':1}]}")
    = Ok out
    /\ parse out
       = parse (quoted "{'annualReports':[{'a':1},{'a':2}],'quarterlyReports':[{'q':1}]}").
Proof. eexists. split; [vm_compute; reflexivity|vm_compute; reflexivity]. Qed.

(** The text written has the two-space indentation of [indent=2]. *)
Example scenario_indented :
  trim (quoted "{'annualReports':[1,2,3],'b':{}}")
  = Ok (quoted "{" ++ [10] ++ quoted "  'annualReports': [" ++ [10]
        ++ quoted "    1," ++ [10] ++ quoted "    2" ++ [10]
        ++ quoted "  ]," ++ [10] ++ quoted "  'b': {}" ++ [10] ++ quoted "}").
Proof. vm_compute. reflexivity. Qed.












(** A report field that is an object: the slice raises a [TypeError]
    before Python 3.12 and a [KeyError] from 3.12 on. *)
Example object_report_field_raises :
  let s := quoted "{'annualReports': {'a': 1}}" in
  _trim_financial_reports whole_of_literal whole_repr Before_3_12 s
  = Raise TypeError
  /\ _trim_financial_reports whole_of_literal whole_repr From_3_12 s
     = Raise KeyError.
Proof. split; vm_compute; reflexivity. Qed.

(** The character above 127 is written as an escape of six ASCII
    characters, so the output is not the input. *)
Example non_ascii_escaped :
  trim (quoted "'caf" ++ [233] ++ quoted "'") = Ok (quoted "'caf\u00e9'").
Proof. vm_compute. reflexivity. Qed.

(** An overview that has report fields is returned as the helper gave
    it. *)
Example overview_not_trimmed :
  let response := quoted "{'annualReports':[1,2,3]}" in
  run (fun _ _ => Ok response) (get_fundamentals (lit "IBM") None)
  = ([(lit "OVERVIEW", [(lit "symbol", lit "IBM")])], Ok response).
Proof. reflexivity. Qed.


(** An exception of the request helper is the outcome of the call. *)
Example helper_exception_propagates :
  let helper := fun (_ : pystr) (_ : list (pystr * pystr)) =>
                  Raise (RequestError (lit "timeout")) in
  run helper (get_cashflow whole_of_literal whole_repr From_3_12
                (lit "IBM") (lit "annual") None)
  = ([(lit "CASH_FLOW", [(lit "symbol", lit "IBM")])],
     Raise (RequestError (lit "timeout"))).
Proof. reflexivity. Qed.

Arguments trim_data {F} version data.

(** ** Witnesses of the further properties *)

Lemma not_a_value_witness :
  trim (lit "Service unavailable, try again later")
  = Ok (lit "Service unavailable, try again later")
  /\ trim (lit "   ") = Ok (lit "   ")
  /\ trim ([0xfeff] ++ quoted "{'annualReports': [1, 2, 3]}")
     = Ok ([0xfeff] ++ quoted "{'annualReports': [1, 2, 3]}").
Proof.
  split; [|split];
    apply (not_a_value_returned_unchanged whole_float whole_of_literal
             whole_repr From_3_12);
    vm_compute; try exact I;
    intros H; repeat (destruct H as [H|H]; [discriminate H|]); discriminate H.
Defined.


(** The strings of the witness above are cut to "pe" and to "not ". *)
Example string_report_field_cut_to_characters :
  exists out,
    trim (quoted "{'annualReports': 'pending', 'quarterlyReports': 'not yet'}")
    = Ok out
    /\ parse out = Some (VDict [(lit "annualReports", VStr (lit "pe"));
                                (lit "quarterlyReports", VStr (lit "not "))]).
Proof. eexists. split; [vm_compute; reflexivity|vm_compute; reflexivity]. Qed.

Lemma output_within_limits_witness :
  let s := quoted "{'annualReports':[1,2,3],'quarterlyReports':[1,2,3,4,5]}" in
  exists out,
    trim s = Ok out
    /\ exists d', parse out = Some (VDict d') /\ within_limits d' = true.
Proof.
  intros s. eexists. split; [vm_compute; reflexivity|].
  apply (output_within_limits whole_float whole_of_literal whole_repr
           From_3_12 whole_repr_literal whole_of_repr s _
           [(lit "annualReports", VList [VInt 1; VInt 2; VInt 3]);
            (lit "quarterlyReports",
             VList [VInt 1; VInt 2; VInt 3; VInt 4; VInt 5])]);
    vm_compute; reflexivity.
Defined.



Lemma trim_twice_witness :
  let s := quoted "{'\ud800" ++ [0xdc00] ++ quoted "': 1, '\ud800\udc00': 2}" in
  exists o1 o2, trim s = Ok o1 /\ trim o1 = Ok o2 /\ trim o2 = Ok o2.
Proof.
  intros s. do 2 eexists.
  split; [vm_compute; reflexivity|]. split; [vm_compute; reflexivity|].
  eapply (trim_twice_is_fixed whole_float whole_of_literal whole_repr
            From_3_12 whole_repr_literal whole_of_repr s);
    [vm_compute; reflexivity|vm_compute; reflexivity].
Defined.


Lemma helper_exception_witness :
  let helper := fun (_ : pystr) (_ : list (pystr * pystr)) =>
                  Raise (RequestError (lit "rate limit")) in
  run helper (get_balance_sheet whole_of_literal whole_repr From_3_12
                (lit "IBM") (lit "annual") None)
  = ([(lit "BALANCE_SHEET", [(lit "symbol", lit "IBM")])],
     Raise (RequestError (lit "rate limit"))).
Proof.
  intros helper.
  apply (helper_exception_is_outcome whole_float whole_of_literal whole_repr
           From_3_12 helper
           (get_balance_sheet whole_of_literal whole_repr From_3_12)
           (lit "BALANCE_SHEET") (lit "IBM") (lit "annual") None).
  - right. left. reflexivity.
  - reflexivity.
Defined.



